(** * CareFlow demo API: a shallow embedding of [api/main.py]

    The service keeps three in-memory collections ([SLOTS], [BOOKINGS],
    [MESSAGES]) and exposes six protected request handlers over them.
    Every handler is embedded as a function in a small state-and-exception
    monad: a handler either returns a response or raises, and in both cases
    yields the store as the handler left it.

    Conventions of the embedding:
    - Python [str] is [string], the text in UTF-8: [==] is [String.eqb],
      [startswith] is [String.prefix] and emptiness is emptiness of the
      bytes. [str.lower], whose Unicode case tables are part of the Python
      runtime and not of this program, is a parameter [lower] of the model.
    - an [Optional[str]] is [option string]; Python truthiness of such a
      value ([if x], [x or d]) is [truthy].
    - a slot or booking [dict] is a record with the dict's keys as fields
      (the key [end] is spelled [end_]).
    - [BOOKINGS] is a [gmap string Booking.t]; the code never iterates over
      it, so insertion order is not observable.
    - the two sources of nondeterminism are inputs: tomorrow's date in ISO
      format ([base_date]) and the integer value of the UUID that
      [uuid.uuid4()] draws in a call ([uuid4 : N]). *)

From Stdlib Require Import ZArith NArith QArith String Ascii List.
From Stdlib Require Import DecimalString HexadecimalString.
From stdpp Require Import base gmap list strings.

(** ** Data model *)

Module Slot.
Record t := mk { start : string; end_ : string; provider : string }.
End Slot.

Module Booking.
Record t := mk {
  patient_ref : string;
  start : string;
  end_ : string;
  provider : string;
  visit_type : string
}.
End Booking.

Module Message.
Record t (Dict : Type) := mk {
  id : string;
  channel : string;
  to : string;
  subject : option string;
  template : option string;
  vars : option Dict
}.
Arguments mk {Dict}.
Arguments id {Dict}.
Arguments channel {Dict}.
Arguments to {Dict}.
Arguments subject {Dict}.
Arguments template {Dict}.
Arguments vars {Dict}.
End Message.

#[global] Instance Slot_eq_dec : EqDecision Slot.t.
Proof. solve_decision. Defined.

#[global] Instance Booking_eq_dec : EqDecision Booking.t.
Proof. solve_decision. Defined.

(** ** Schemas (the pydantic request models) *)

Record BookRequest := {
  br_patient_ref : string;
  br_start : string;
  br_end : string;
  br_provider : string;
  br_visit_type : string
}.

Record RescheduleRequest := {
  rr_booking_id : string;
  rr_new_start : string;
  rr_new_end : string
}.

Record CancelRequest := {
  cr_booking_id : string;
  cr_reason : option string
}.

Record SendMessageRequest (Dict : Type) := {
  sm_channel : string;
  sm_to : string;
  sm_subject : option string;
  sm_template_name : option string;
  sm_variables : option Dict
}.
Arguments sm_channel {Dict}.
Arguments sm_to {Dict}.
Arguments sm_subject {Dict}.
Arguments sm_template_name {Dict}.
Arguments sm_variables {Dict}.

Record InsuranceVerifyRequest := {
  iv_payer : string;
  iv_cpt_code : string;
  iv_visit_type : option string
}.

(** [InsuranceVerifyRequest(payer=.., cpt_code=.., [visit_type=..])]: the
    field [visit_type] is declared [Optional[str] = "screening"], so a
    request that does not supply it gets ["screening"], while one that
    supplies [null] gets [None]. *)
Definition InsuranceVerifyRequest_init
    (payer cpt_code : string) (visit_type : option (option string))
  : InsuranceVerifyRequest :=
  {| iv_payer := payer;
     iv_cpt_code := cpt_code;
     iv_visit_type := match visit_type with
                      | Some v => v
                      | None => Some "screening"
                      end |}.

(** [req.model_dump()] of a [BookRequest]: a fresh dict with the five
    fields. *)
Definition model_dump (req : BookRequest) : Booking.t :=
  {| Booking.patient_ref := br_patient_ref req;
     Booking.start := br_start req;
     Booking.end_ := br_end req;
     Booking.provider := br_provider req;
     Booking.visit_type := br_visit_type req |}.

(** ** Python built-ins used by the handlers *)

(** Truthiness of an [Optional[str]]: [None] and [""] are falsy. *)
Definition truthy (x : option string) : bool :=
  match x with
  | Some s => negb (String.eqb s "")
  | None => false
  end.

(** [x or d] for an [Optional[str]] [x] and a string [d]. *)
Definition or_default (x : option string) (d : string) : string :=
  match x with
  | Some s => if String.eqb s "" then d else s
  | None => d
  end.

(** [str.lower] itself is not defined here: its Unicode case tables belong
    to the Python runtime, so the handlers take it as the parameter [lower].
    On text made of ASCII characters only, [str.lower] maps [A] to [Z] onto
    [a] to [z] and keeps every other character; [ascii_lower] is that
    function. It is used only to run the handlers on the ASCII sample data
    below. *)
Definition lower_ascii (c : ascii) : ascii :=
  let n := N_of_ascii c in
  if ((65 <=? n) && (n <=? 90))%N then ascii_of_N (n + 32) else c.

Fixpoint ascii_lower (s : string) : string :=
  match s with
  | EmptyString => EmptyString
  | String c s' => String (lower_ascii c) (ascii_lower s')
  end.

(** [s.startswith(p)] is [String.prefix p s]. *)
Definition startswith (s p : string) : bool := String.prefix p s.

(** [f"{n:02d}"]: decimal, zero-padded on the left to width 2. *)
Definition fmt_02d (n : nat) : string :=
  let s := DecimalString.NilEmpty.string_of_uint (Nat.to_uint n) in
  if (String.length s <? 2)%nat
  then String.concat "" (repeat "0" (2 - String.length s)) +:+ s
  else s.

(** ['%032x' % n]: lower-case hexadecimal, zero-padded on the left to
    width 32. *)
Definition fmt_032x (n : N) : string :=
  let s := HexadecimalString.NilZero.string_of_uint (N.to_hex_uint n) in
  String.concat "" (repeat "0" (32 - String.length s)) +:+ s.

(** [str(u)] for a [uuid.UUID] [u] whose [int] attribute is [n]: the 32
    hexadecimal digits in groups 8-4-4-4-12. *)
Definition str_uuid (n : N) : string :=
  let hex := fmt_032x n in
  substring 0 8 hex +:+ "-" +:+ substring 8 4 hex +:+ "-" +:+
  substring 12 4 hex +:+ "-" +:+ substring 16 4 hex +:+ "-" +:+
  substring 20 (String.length hex - 20) hex.

(** [l.remove(x)]: drops the first element equal to [x]; [None] stands for
    the [ValueError] raised when there is none. *)
Fixpoint list_remove (x : Slot.t) (l : list Slot.t) : option (list Slot.t) :=
  match l with
  | [] => None
  | y :: l' =>
      if decide (y = x) then Some l'
      else match list_remove x l' with
           | Some r => Some (y :: r)
           | None => None
           end
  end.

(** ** The store and the handler monad *)

(** The three module-level collections. [Dict] is the type of the free-form
    [variables] payload of a message, which the service stores and never
    inspects. *)
Record State (Dict : Type) := mkState {
  SLOTS : list Slot.t;
  BOOKINGS : gmap string Booking.t;
  MESSAGES : list (Message.t Dict)
}.
Arguments mkState {Dict}.
Arguments SLOTS {Dict}.
Arguments BOOKINGS {Dict}.
Arguments MESSAGES {Dict}.

(** What a handler can raise: FastAPI's [HTTPException], or one of the two
    built-in errors of the container operations it calls. *)
Inductive exn :=
| HTTPException (status_code : Z) (detail : string)
| ValueError
| KeyError.

Inductive outcome (A : Type) :=
| Return (a : A)
| Raise (e : exn).
Arguments Return {A}.
Arguments Raise {A}.

(** A handler body: from the store before the call to its outcome and the
    store after it. A raise keeps the mutations made before it. *)
Definition M (Dict A : Type) : Type := State Dict -> outcome A * State Dict.

Definition ret {Dict A} (a : A) : M Dict A := fun st => (Return a, st).

Definition raise {Dict A} (e : exn) : M Dict A := fun st => (Raise e, st).

Definition bind {Dict A B} (m : M Dict A) (k : A -> M Dict B) : M Dict B :=
  fun st =>
    match m st with
    | (Return a, st') => k a st'
    | (Raise e, st') => (Raise e, st')
    end.

Declare Scope py_scope.
Delimit Scope py_scope with py.
Notation "x <- m ;; k" := (bind m (fun x => k))
  (at level 20, m at level 99, k at level 200, only parsing) : py_scope.
Notation "m ;; k" := (bind m (fun _ => k))
  (at level 100, k at level 200, only parsing, right associativity) : py_scope.

(** The JSON bodies the handlers return, one constructor per shape. *)
Inductive Response :=
| SlotsResponse (slots : list Slot.t)
| BookingResponse (booking_id status : string) (booking : Booking.t)
| CancelResponse (booking_id status reason : string)
| MessageResponse (status message_id : string)
| InsuranceResponse (covered : bool) (copay_estimate : Q)
    (preauth_required : bool) (steps : list string).

Section Service.
Context {Dict : Type}.

(** The module-level [API_KEY = os.getenv("API_KEY")], read once at
    start-up; [None] when the variable is not set. *)
Variable API_KEY : option string.

(** The built-in [str.lower], applied to both sides of the provider
    comparison in [list_slots]. *)
Variable lower : string -> string.

Local Open Scope py_scope.
Local Abbreviation M := (M Dict).

(** *** Store primitives *)

Definition get_SLOTS : M (list Slot.t) := fun st => (Return (SLOTS st), st).

Definition get_BOOKINGS : M (gmap string Booking.t) :=
  fun st => (Return (BOOKINGS st), st).

(** [SLOTS.clear()] *)
Definition SLOTS_clear : M unit :=
  fun st => (Return tt, mkState [] (BOOKINGS st) (MESSAGES st)).

(** [SLOTS.append(s)] *)
Definition SLOTS_append (s : Slot.t) : M unit :=
  fun st => (Return tt, mkState (SLOTS st ++ [s]) (BOOKINGS st) (MESSAGES st)).

(** [SLOTS.remove(s)] *)
Definition SLOTS_remove (s : Slot.t) : M unit :=
  fun st =>
    match list_remove s (SLOTS st) with
    | Some l => (Return tt, mkState l (BOOKINGS st) (MESSAGES st))
    | None => (Raise ValueError, st)
    end.

(** [BOOKINGS[k]] *)
Definition BOOKINGS_getitem (k : string) : M Booking.t :=
  fun st =>
    match BOOKINGS st !! k with
    | Some b => (Return b, st)
    | None => (Raise KeyError, st)
    end.

(** [BOOKINGS[k] = b]; also the write-back of an in-place mutation of the
    dict stored under [k]. *)
Definition BOOKINGS_setitem (k : string) (b : Booking.t) : M unit :=
  fun st => (Return tt, mkState (SLOTS st) (<[k:=b]> (BOOKINGS st)) (MESSAGES st)).

(** [BOOKINGS.pop(k)] *)
Definition BOOKINGS_pop (k : string) : M Booking.t :=
  fun st =>
    match BOOKINGS st !! k with
    | Some b => (Return b, mkState (SLOTS st) (delete k (BOOKINGS st)) (MESSAGES st))
    | None => (Raise KeyError, st)
    end.

(** [MESSAGES.append(r)] *)
Definition MESSAGES_append (r : Message.t Dict) : M unit :=
  fun st => (Return tt, mkState (SLOTS st) (BOOKINGS st) (MESSAGES st ++ [r])).

(** *** Security *)

Definition require_key (x_api_key : option string) : M unit :=
  if negb (truthy x_api_key) || negb (bool_decide (x_api_key = API_KEY))
  then raise (HTTPException 401 "Unauthorized: invalid x-api-key")
  else ret tt.

(** *** Seeding *)

(** The body of the [for hour in ...] loop of [seed_slots]. *)
Definition seed_hour (base_date : string) (hour : nat) : M unit :=
  SLOTS_append {| Slot.start := base_date +:+ "T" +:+ fmt_02d hour +:+ ":00:00";
                  Slot.end_ := base_date +:+ "T" +:+ fmt_02d hour +:+ ":40:00";
                  Slot.provider := "Dr. Lee" |} ;;
  SLOTS_append {| Slot.start := base_date +:+ "T" +:+ fmt_02d hour +:+ ":00:00";
                  Slot.end_ := base_date +:+ "T" +:+ fmt_02d hour +:+ ":20:00";
                  Slot.provider := "NP Garcia" |}.

Fixpoint for_each (hours : list nat) (body : nat -> M unit) : M unit :=
  match hours with
  | [] => ret tt
  | h :: hours' => body h ;; for_each hours' body
  end.

(** [seed_slots()]; [base_date] is
    [(datetime.date.today() + datetime.timedelta(days=1)).isoformat()]. *)
Definition seed_slots (base_date : string) : M unit :=
  SLOTS_clear ;;
  for_each [9; 10; 11; 13; 14; 15]%nat (seed_hour base_date).

(** The store once the module is loaded: [SLOTS = []], then
    [seed_slots()], then [BOOKINGS = {}] and [MESSAGES = []]. *)
Definition initial_state (base_date : string) : State Dict :=
  snd (seed_slots base_date (mkState [] ∅ [])).

(** *** Routes: calendar *)

Definition list_slots (date provider x_api_key : option string) : M Response :=
  require_key x_api_key ;;
  results <- get_SLOTS ;;
  let results :=
    match date with
    | Some d => if truthy date
                then List.filter (fun s => startswith (Slot.start s) d) results
                else results
    | None => results
    end in
  let results :=
    match provider with
    | Some p => if truthy provider
                then List.filter
                       (fun s => String.eqb (lower (Slot.provider s)) (lower p))
                       results
                else results
    | None => results
    end in
  ret (SlotsResponse (take 20 results)).

(** The first 8 characters of [str(uuid.uuid4())]. *)
Definition short_id (uuid4 : N) : string := substring 0 8 (str_uuid uuid4).

Definition book (req : BookRequest) (x_api_key : option string) (uuid4 : N)
  : M Response :=
  require_key x_api_key ;;
  slots <- get_SLOTS ;;
  match find (fun s => String.eqb (Slot.start s) (br_start req)
                       && String.eqb (Slot.end_ s) (br_end req)
                       && String.eqb (Slot.provider s) (br_provider req))
             slots with
  | None => raise (HTTPException 400 "Slot not available")
  | Some match_ =>
      SLOTS_remove match_ ;;
      let booking_id := short_id uuid4 in
      BOOKINGS_setitem booking_id (model_dump req) ;;
      booking <- BOOKINGS_getitem booking_id ;;
      ret (BookingResponse booking_id "created" booking)
  end.

Definition reschedule (req : RescheduleRequest) (x_api_key : option string)
  : M Response :=
  require_key x_api_key ;;
  bookings <- get_BOOKINGS ;;
  if negb (bool_decide (is_Some (bookings !! rr_booking_id req)))
  then raise (HTTPException 404 "Booking not found")
  else
    slots <- get_SLOTS ;;
    match find (fun s => String.eqb (Slot.start s) (rr_new_start req)
                         && String.eqb (Slot.end_ s) (rr_new_end req))
               slots with
    | None => raise (HTTPException 400 "New slot not available")
    | Some match_ =>
        old <- BOOKINGS_getitem (rr_booking_id req) ;;
        SLOTS_append {| Slot.start := Booking.start old;
                        Slot.end_ := Booking.end_ old;
                        Slot.provider := Booking.provider old |} ;;
        SLOTS_remove match_ ;;
        let old' := {| Booking.patient_ref := Booking.patient_ref old;
                       Booking.start := rr_new_start req;
                       Booking.end_ := rr_new_end req;
                       Booking.provider := Booking.provider old;
                       Booking.visit_type := Booking.visit_type old |} in
        BOOKINGS_setitem (rr_booking_id req) old' ;;
        ret (BookingResponse (rr_booking_id req) "rescheduled" old')
    end.

Definition cancel (req : CancelRequest) (x_api_key : option string)
  : M Response :=
  require_key x_api_key ;;
  bookings <- get_BOOKINGS ;;
  if negb (bool_decide (is_Some (bookings !! cr_booking_id req)))
  then raise (HTTPException 404 "Booking not found")
  else
    old <- BOOKINGS_pop (cr_booking_id req) ;;
    SLOTS_append {| Slot.start := Booking.start old;
                    Slot.end_ := Booking.end_ old;
                    Slot.provider := Booking.provider old |} ;;
    ret (CancelResponse (cr_booking_id req) "canceled"
           (or_default (cr_reason req) "unspecified")).

(** *** Routes: messaging *)

(** [logging.info] writes to the process log only and is left out. *)
Definition send_message (req : SendMessageRequest Dict)
    (x_api_key : option string) (uuid4 : N) : M Response :=
  require_key x_api_key ;;
  let record := {| Message.id := short_id uuid4;
                   Message.channel := sm_channel req;
                   Message.to := sm_to req;
                   Message.subject := sm_subject req;
                   Message.template := sm_template_name req;
                   Message.vars := sm_variables req |} in
  MESSAGES_append record ;;
  ret (MessageResponse "queued" (Message.id record)).

(** *** Routes: insurance *)

Definition insurance_verify (req : InsuranceVerifyRequest)
    (x_api_key : option string) : M Response :=
  require_key x_api_key ;;
  let covered := true in
  let preauth_required := negb (bool_decide (iv_visit_type req = Some "screening")) in
  let copay_est :=
    if bool_decide (iv_visit_type req = Some "screening") then 100%Q else 150%Q in
  let steps :=
    if preauth_required
    then ["Submit indication & notes"; "Get auth reference"; "Validity 30 days"]
    else ["No pre-auth required"] in
  ret (InsuranceResponse covered copay_est preauth_required steps).

End Service.

(** ** Vocabulary of the specification *)

(** The start/end/provider triple of a booking, as a slot. *)
Definition slot_of (b : Booking.t) : Slot.t :=
  {| Slot.start := Booking.start b;
     Slot.end_ := Booking.end_ b;
     Slot.provider := Booking.provider b |}.

(** The time interval of a slot, without its provider. *)
Definition interval (s : Slot.t) : string * string :=
  (Slot.start s, Slot.end_ s).

(** A booking with its start and end overwritten. *)
Definition moved (b : Booking.t) (new_start new_end : string) : Booking.t :=
  {| Booking.patient_ref := Booking.patient_ref b;
     Booking.start := new_start;
     Booking.end_ := new_end;
     Booking.provider := Booking.provider b;
     Booking.visit_type := Booking.visit_type b |}.

(** The triples of the active bookings. *)
Definition booked {Dict} (st : State Dict) : list Slot.t :=
  slot_of <$> (map_to_list (BOOKINGS st)).*2.

(** The intervals held by the pool and by the active bookings together. *)
Definition intervals {Dict} (st : State Dict) : list (string * string) :=
  interval <$> (SLOTS st ++ booked st).

(** One request to a protected route, with the UUID drawn while serving it
    where the handler draws one. *)
Inductive Request (Dict : Type) :=
| ListSlots (date provider : option string)
| Book (req : BookRequest) (uuid4 : N)
| Reschedule (req : RescheduleRequest)
| Cancel (req : CancelRequest)
| SendMessage (req : SendMessageRequest Dict) (uuid4 : N)
| InsuranceVerify (req : InsuranceVerifyRequest).
Arguments ListSlots {Dict}.
Arguments Book {Dict}.
Arguments Reschedule {Dict}.
Arguments Cancel {Dict}.
Arguments SendMessage {Dict}.
Arguments InsuranceVerify {Dict}.

Section Specification.
Context {Dict : Type}.
Variable API_KEY : option string.
Variable lower : string -> string.

(** The request carries the configured secret: a non-empty header equal to
    a configured [API_KEY]. *)
Definition authorized (x_api_key : option string) : Prop :=
  ∃ k, k ≠ "" ∧ x_api_key = Some k ∧ API_KEY = Some k.

(** Dispatch of a request to its handler. *)
Definition handle (r : Request Dict) (x_api_key : option string)
  : M Dict Response :=
  match r with
  | ListSlots date provider => list_slots API_KEY lower date provider x_api_key
  | Book req uuid4 => book API_KEY req x_api_key uuid4
  | Reschedule req => reschedule API_KEY req x_api_key
  | Cancel req => cancel API_KEY req x_api_key
  | SendMessage req uuid4 => send_message API_KEY req x_api_key uuid4
  | InsuranceVerify req => insurance_verify API_KEY req x_api_key
  end.

(** The stores the service can be in: the seeded one, and any store left
    by a handler called on a reachable store, whatever the call's outcome. *)
Inductive reachable (base_date : string) : State Dict -> Prop :=
| reachable_init : reachable base_date (initial_state base_date)
| reachable_step st r x_api_key :
    reachable base_date st ->
    reachable base_date (snd (handle r x_api_key st)).

(** Slot listing as the specification words it: a present date filter keeps
    the slots whose start begins with it, a present provider filter keeps
    the slots whose provider equals it up to case (the two have the same
    [lower]), an absent filter keeps everything; the first 20 kept slots
    are returned in pool order. *)
Definition date_keeps (date : option string) (s : Slot.t) : bool :=
  match date with
  | Some d => String.prefix d (Slot.start s)
  | None => true
  end.



(** The provider filter as the code applies it: an empty filter string
    counts as absent. *)
Definition provider_keeps_nonempty (provider : option string) (s : Slot.t)
  : bool :=
  match provider with
  | Some p => if String.eqb p "" then true
              else String.eqb (lower (Slot.provider s)) (lower p)
  | None => true
  end.


End Specification.

(** ** Sample stores and requests *)

(** A configured secret, a seeding date, two version-4 UUIDs that differ
    but share their first eight hexadecimal digits, and the stores obtained
    from the seeded one by booking the 09:00 slot of "Dr. Lee" with the
    first UUID and then the 09:00 slot of "NP Garcia" with the second. *)
Definition demo_key : option string := Some "secret".

(** 1f2e3d4c-5b6a-4978-8a9b-0c1d2e3f4a5b *)
Definition demo_uuid : N := 0x1f2e3d4c5b6a49788a9b0c1d2e3f4a5b%N.

(** 1f2e3d4c-0f1e-4d2c-9b3a-5867a9b0c1d2 *)
Definition demo_uuid' : N := 0x1f2e3d4c0f1e4d2c9b3a5867a9b0c1d2%N.

Definition demo_date : string := "2026-11-04".

Definition demo_seeded : State unit := initial_state demo_date.

Definition demo_book_lee : BookRequest :=
  {| br_patient_ref := "patient-1";
     br_start := "2026-11-04T09:00:00";
     br_end := "2026-11-04T09:40:00";
     br_provider := "Dr. Lee";
     br_visit_type := "screening" |}.

Definition demo_book_garcia : BookRequest :=
  {| br_patient_ref := "patient-2";
     br_start := "2026-11-04T09:00:00";
     br_end := "2026-11-04T09:20:00";
     br_provider := "NP Garcia";
     br_visit_type := "consult" |}.

Definition demo_slot_garcia : Slot.t :=
  {| Slot.start := "2026-11-04T09:00:00";
     Slot.end_ := "2026-11-04T09:20:00";
     Slot.provider := "NP Garcia" |}.

Definition demo_move : RescheduleRequest :=
  {| rr_booking_id := "1f2e3d4c";
     rr_new_start := "2026-11-04T10:00:00";
     rr_new_end := "2026-11-04T10:20:00" |}.

Definition demo_cancel (reason : option string) : CancelRequest :=
  {| cr_booking_id := "1f2e3d4c"; cr_reason := reason |}.

Definition demo_one_booking : State unit :=
  snd (book demo_key demo_book_lee demo_key demo_uuid demo_seeded).

Definition demo_collided : State unit :=
  snd (book demo_key demo_book_garcia demo_key demo_uuid' demo_one_booking).

(** ** Routes: health *)

(** The body [{"ok": ..., "api_key_present": ...}] of the health route. *)
Record HealthResponse := {
  ok : bool;
  api_key_present : bool
}.

Section Health.
Context {Dict : Type}.
Variable API_KEY : option string.

(** [health()]: the route takes no header and does not call [require_key];
    [bool(API_KEY)] is the truthiness of the configured key. *)
Definition health : M Dict HealthResponse :=
  ret {| ok := true; api_key_present := truthy API_KEY |}.

End Health.

(** ** Sequences of requests *)

Section Runs.
Context {Dict : Type}.
Variable API_KEY : option string.
Variable lower : string -> string.

(** The store after serving the calls in order, each with its own header. *)
Fixpoint run (calls : list (Request Dict * option string)) (st : State Dict)
  : State Dict :=
  match calls with
  | [] => st
  | (r, x_api_key) :: calls' => run calls' (snd (handle API_KEY lower r x_api_key st))
  end.

End Runs.

(** The characters ['%x'] prints: decimal digits and [a] to [f]. *)
Definition is_lower_hex (c : ascii) : bool :=
  let n := N_of_ascii c in
  (((48 <=? n) && (n <=? 57)) || ((97 <=? n) && (n <=? 102)))%N.

(** The two providers [seed_slots] writes. *)
Definition seeded_providers : list string := ["Dr. Lee"; "NP Garcia"].

(** The providers named in the pool and in the active bookings. *)
Definition providers {Dict} (st : State Dict) : list string :=
  Slot.provider <$> (SLOTS st ++ booked st).

(** 9c8d7e6f-0a1b-4c2d-8e3f-405162738495, a UUID with other leading digits. *)
Definition demo_uuid_other : N := 0x9c8d7e6f0a1b4c2d8e3f405162738495%N.

Definition demo_message : SendMessageRequest unit :=
  {| sm_channel := "sms";
     sm_to := "+15550100";
     sm_subject := None;
     sm_template_name := Some "reminder";
     sm_variables := Some tt |}.

(** ** Properties *)

Section Properties.
Context {Dict : Type}.
Variable API_KEY : option string.
Variable lower : string -> string.

Local Abbreviation unauthorized_error :=
  (HTTPException 401 "Unauthorized: invalid x-api-key").

(** *** The access guard *)

Lemma truthy_Some k : truthy (Some k) = true <-> k ≠ "".
Proof.
  unfold truthy. rewrite negb_true_iff. apply String.eqb_neq.
Qed.

Lemma require_key_authorized x_api_key (st : State Dict) :
  authorized API_KEY x_api_key ->
  require_key API_KEY x_api_key st = (Return tt, st).
Proof.
  intros (k & Hk & -> & HK). unfold require_key.
  apply truthy_Some in Hk. rewrite Hk, HK.
  rewrite bool_decide_eq_true_2 by reflexivity. reflexivity.
Qed.

Lemma require_key_cases x_api_key (st : State Dict) :
  (authorized API_KEY x_api_key
   ∧ require_key API_KEY x_api_key st = (Return tt, st))
  ∨ (¬ authorized API_KEY x_api_key
     ∧ require_key API_KEY x_api_key st = (Raise unauthorized_error, st)).
Proof.
  unfold require_key.
  destruct (truthy x_api_key) eqn:Ht; simpl.
  - destruct (bool_decide (x_api_key = API_KEY)) eqn:Hd; simpl.
    + left. split; [|reflexivity].
      apply bool_decide_eq_true_1 in Hd.
      destruct x_api_key as [k|]; [|discriminate].
      exists k. apply truthy_Some in Ht. auto.
    + right. split; [|reflexivity].
      apply bool_decide_eq_false_1 in Hd.
      intros (k & _ & -> & HK). congruence.
  - right. split; [|reflexivity].
    intros (k & Hk & -> & _). apply truthy_Some in Hk. congruence.
Qed.

Lemma require_key_rejects x_api_key (st : State Dict) :
  x_api_key = None ∨ x_api_key ≠ API_KEY ->
  require_key API_KEY x_api_key st = (Raise unauthorized_error, st).
Proof.
  intros H.
  destruct (require_key_cases x_api_key st) as [[(k & _ & -> & HK) _]|[_ E]];
    [|exact E].
  destruct H; congruence.
Qed.

(** Every handler starts with the guard: a rejected key ends the call there. *)
Lemma guard_rejects {A} x_api_key (body : M Dict A) (st : State Dict) :
  x_api_key = None ∨ x_api_key ≠ API_KEY ->
  bind (require_key API_KEY x_api_key) (fun _ => body) st
  = (Raise unauthorized_error, st).
Proof.
  intros H. unfold bind. rewrite (require_key_rejects _ _ H). reflexivity.
Qed.

Lemma guard_passes {A} x_api_key (body : M Dict A) (st : State Dict) :
  authorized API_KEY x_api_key ->
  bind (require_key API_KEY x_api_key) (fun _ => body) st = body st.
Proof.
  intros H. unfold bind. rewrite (require_key_authorized _ _ H). reflexivity.
Qed.

Lemma guard_returns {A} x_api_key (body : M Dict A) (st st' : State Dict) a :
  bind (require_key API_KEY x_api_key) (fun _ => body) st = (Return a, st') ->
  authorized API_KEY x_api_key ∧ body st = (Return a, st').
Proof.
  unfold bind.
  destruct (require_key_cases x_api_key st) as [[Ha E]|[_ E]]; rewrite E.
  - auto.
  - discriminate.
Qed.

(** C7: with the API-key header absent or different from the configured
    secret, each of the six protected handlers (list slots, book,
    reschedule, cancel, send message, verify insurance) raises the 401
    error and leaves the whole store (slot pool, bookings and message log)
    as it was. *)
Theorem unauthorized_request_rejected
    (x_api_key : option string) (st : State Dict) :
  x_api_key = None ∨ x_api_key ≠ API_KEY ->
  (∀ date provider,
      list_slots API_KEY lower date provider x_api_key st
      = (Raise unauthorized_error, st))
  ∧ (∀ req uuid4,
      book API_KEY req x_api_key uuid4 st = (Raise unauthorized_error, st))
  ∧ (∀ req,
      reschedule API_KEY req x_api_key st = (Raise unauthorized_error, st))
  ∧ (∀ req,
      cancel API_KEY req x_api_key st = (Raise unauthorized_error, st))
  ∧ (∀ req uuid4,
      send_message API_KEY req x_api_key uuid4 st
      = (Raise unauthorized_error, st))
  ∧ (∀ req,
      insurance_verify API_KEY req x_api_key st
      = (Raise unauthorized_error, st)).
Proof.
  intros H.
  repeat split; intros;
    (unfold list_slots, book, reschedule, cancel, send_message,
       insurance_verify);
    apply guard_rejects; exact H.
Qed.

(** *** Scanning and removing in the pool *)

(** [next((s for s in l if P s), None)] returns the first element that
    satisfies [P], with only non-matching elements before it. *)
Lemma find_first (P : Slot.t -> bool) (l : list Slot.t) m :
  find P l = Some m ->
  ∃ l1 l2, l = l1 ++ m :: l2 ∧ Forall (fun s => P s = false) l1 ∧ P m = true.
Proof.
  induction l as [|x l IH]; simpl; [discriminate|].
  destruct (P x) eqn:HP.
  - intros [= <-]. exists [], l. auto.
  - intros H. destruct (IH H) as (l1 & l2 & -> & Hl1 & Hm).
    exists (x :: l1), l2. auto.
Qed.

Lemma find_at_first (P : Slot.t -> bool) (l1 l2 : list Slot.t) m :
  Forall (fun s => P s = false) l1 -> P m = true ->
  find P (l1 ++ m :: l2) = Some m.
Proof.
  induction 1 as [|x l1 Hx _ IH]; simpl; intros Hm.
  - rewrite Hm. reflexivity.
  - rewrite Hx. auto.
Qed.

Lemma find_absent (P : Slot.t -> bool) (l : list Slot.t) :
  find P l = None <-> Forall (fun s => P s = false) l.
Proof.
  induction l as [|x l IH]; simpl.
  - split; auto.
  - destruct (P x) eqn:HP; split.
    + discriminate.
    + intros H. apply Forall_cons_1 in H. destruct H; congruence.
    + intros H. constructor; [assumption | apply IH, H].
    + intros H. apply Forall_cons_1 in H. apply IH, H.
Qed.

(** [l.remove(m)] takes out the first occurrence of [m], wherever the list
    continues after it. *)
Lemma list_remove_first (m : Slot.t) (l1 l2 : list Slot.t) :
  Forall (fun s => s ≠ m) l1 ->
  list_remove m (l1 ++ m :: l2) = Some (l1 ++ l2).
Proof.
  induction 1 as [|x l1 Hx _ IH]; simpl.
  - rewrite decide_True by reflexivity. reflexivity.
  - rewrite decide_False by assumption. rewrite IH. reflexivity.
Qed.

Lemma unmatched_differs (P : Slot.t -> bool) (l : list Slot.t) m :
  Forall (fun s => P s = false) l -> P m = true -> Forall (fun s => s ≠ m) l.
Proof.
  intros Hl Hm. eapply Forall_impl; [exact Hl|].
  intros s Hs ->. congruence.
Qed.

(** The two scanning predicates of the handlers, as propositions. *)
Lemma book_match_iff (req : BookRequest) (s : Slot.t) :
  String.eqb (Slot.start s) (br_start req)
  && String.eqb (Slot.end_ s) (br_end req)
  && String.eqb (Slot.provider s) (br_provider req) = true
  <-> s = slot_of (model_dump req).
Proof.
  rewrite !andb_true_iff, !String.eqb_eq.
  destruct s as [a b c]; simpl. unfold slot_of; simpl. split.
  - intros [[-> ->] ->]. reflexivity.
  - intros [= -> -> ->]. auto.
Qed.

Lemma reschedule_match_iff (req : RescheduleRequest) (s : Slot.t) :
  String.eqb (Slot.start s) (rr_new_start req)
  && String.eqb (Slot.end_ s) (rr_new_end req) = true
  <-> interval s = (rr_new_start req, rr_new_end req).
Proof.
  rewrite andb_true_iff, !String.eqb_eq. unfold interval. split.
  - intros [-> ->]. reflexivity.
  - intros [= -> ->]. auto.
Qed.

Lemma Forall_false_iff (P : Slot.t -> bool) (Q : Slot.t -> Prop) l :
  (∀ s, P s = true <-> Q s) ->
  Forall (fun s => P s = false) l <-> Forall (fun s => ¬ Q s) l.
Proof.
  intros HPQ. apply Forall_iff. intros s. rewrite <- HPQ.
  destruct (P s); split; congruence.
Qed.

Lemma booking_known (bookings : gmap string Booking.t) id b :
  bookings !! id = Some b ->
  negb (bool_decide (is_Some (bookings !! id))) = false.
Proof.
  intros H. rewrite bool_decide_eq_true_2; [reflexivity | eauto].
Qed.

Lemma booking_unknown (bookings : gmap string Booking.t) id :
  bookings !! id = None ->
  negb (bool_decide (is_Some (bookings !! id))) = true.
Proof.
  intros H. rewrite bool_decide_eq_false_2; [reflexivity|].
  rewrite H. apply is_Some_None.
Qed.

(** *** What each calendar handler does, case by case *)

Local Abbreviation not_found := (HTTPException 404 "Booking not found").

Lemma reschedule_unknown req x_api_key (st : State Dict) :
  authorized API_KEY x_api_key ->
  BOOKINGS st !! rr_booking_id req = None ->
  reschedule API_KEY req x_api_key st = (Raise not_found, st).
Proof.
  intros Ha Hb. unfold reschedule. rewrite guard_passes by assumption.
  unfold bind, get_BOOKINGS. rewrite (booking_unknown _ _ Hb). reflexivity.
Qed.

Lemma reschedule_unavailable req x_api_key (st : State Dict) old :
  authorized API_KEY x_api_key ->
  BOOKINGS st !! rr_booking_id req = Some old ->
  Forall (fun s => ¬ interval s = (rr_new_start req, rr_new_end req)) (SLOTS st) ->
  reschedule API_KEY req x_api_key st
  = (Raise (HTTPException 400 "New slot not available"), st).
Proof.
  intros Ha Hb Hs. unfold reschedule. rewrite guard_passes by assumption.
  unfold bind, get_BOOKINGS. rewrite (booking_known _ _ _ Hb).
  unfold get_SLOTS.
  apply (Forall_false_iff _ _ _ (reschedule_match_iff req)) in Hs.
  apply find_absent in Hs. rewrite Hs. reflexivity.
Qed.

Lemma reschedule_success req x_api_key (st : State Dict) old l1 m l2 :
  authorized API_KEY x_api_key ->
  BOOKINGS st !! rr_booking_id req = Some old ->
  SLOTS st = l1 ++ m :: l2 ->
  Forall (fun s => ¬ interval s = (rr_new_start req, rr_new_end req)) l1 ->
  interval m = (rr_new_start req, rr_new_end req) ->
  reschedule API_KEY req x_api_key st
  = (Return (BookingResponse (rr_booking_id req) "rescheduled"
               (moved old (rr_new_start req) (rr_new_end req))),
     mkState (l1 ++ l2 ++ [slot_of old])
             (<[rr_booking_id req := moved old (rr_new_start req) (rr_new_end req)]>
                (BOOKINGS st))
             (MESSAGES st)).
Proof.
  intros Ha Hb Hs Hl1 Hm. unfold reschedule. rewrite guard_passes by assumption.
  unfold bind, get_BOOKINGS. rewrite (booking_known _ _ _ Hb).
  unfold get_SLOTS.
  apply (Forall_false_iff _ _ _ (reschedule_match_iff req)) in Hl1.
  apply reschedule_match_iff in Hm.
  rewrite Hs, (find_at_first _ _ _ _ Hl1 Hm).
  unfold BOOKINGS_getitem. rewrite Hb.
  unfold SLOTS_append, SLOTS_remove; simpl.
  rewrite Hs, <- app_assoc; simpl.
  rewrite list_remove_first by exact (unmatched_differs _ _ _ Hl1 Hm).
  reflexivity.
Qed.

Lemma reschedule_cases req x_api_key (st : State Dict) :
  (¬ authorized API_KEY x_api_key
   ∧ reschedule API_KEY req x_api_key st = (Raise unauthorized_error, st))
  ∨ (authorized API_KEY x_api_key
     ∧ BOOKINGS st !! rr_booking_id req = None
     ∧ reschedule API_KEY req x_api_key st = (Raise not_found, st))
  ∨ (authorized API_KEY x_api_key
     ∧ (∃ old, BOOKINGS st !! rr_booking_id req = Some old)
     ∧ Forall (fun s => ¬ interval s = (rr_new_start req, rr_new_end req))
              (SLOTS st)
     ∧ reschedule API_KEY req x_api_key st
       = (Raise (HTTPException 400 "New slot not available"), st))
  ∨ (authorized API_KEY x_api_key
     ∧ ∃ old l1 m l2,
         BOOKINGS st !! rr_booking_id req = Some old
         ∧ SLOTS st = l1 ++ m :: l2
         ∧ Forall (fun s => ¬ interval s = (rr_new_start req, rr_new_end req)) l1
         ∧ interval m = (rr_new_start req, rr_new_end req)
         ∧ reschedule API_KEY req x_api_key st
           = (Return (BookingResponse (rr_booking_id req) "rescheduled"
                        (moved old (rr_new_start req) (rr_new_end req))),
              mkState (l1 ++ l2 ++ [slot_of old])
                      (<[rr_booking_id req
                         := moved old (rr_new_start req) (rr_new_end req)]>
                         (BOOKINGS st))
                      (MESSAGES st))).
Proof.
  destruct (require_key_cases x_api_key st) as [[Ha _]|[Hn E]].
  2:{ left. split; [assumption|]. unfold reschedule, bind. rewrite E. reflexivity. }
  right.
  destruct (BOOKINGS st !! rr_booking_id req) as [old|] eqn:Hb.
  2:{ left. auto using reschedule_unknown. }
  right.
  destruct (find (fun s => String.eqb (Slot.start s) (rr_new_start req)
                           && String.eqb (Slot.end_ s) (rr_new_end req))
                 (SLOTS st)) as [m|] eqn:Hf.
  - right. split; [assumption|].
    apply find_first in Hf. destruct Hf as (l1 & l2 & Hs & Hl1 & Hm).
    apply (Forall_false_iff _ _ _ (reschedule_match_iff req)) in Hl1.
    apply reschedule_match_iff in Hm.
    exists old, l1, m, l2. eauto 10 using reschedule_success.
  - left. apply find_absent in Hf.
    apply (Forall_false_iff _ _ _ (reschedule_match_iff req)) in Hf.
    eauto 10 using reschedule_unavailable.
Qed.

Local Abbreviation slot_unavailable := (HTTPException 400 "Slot not available").

Lemma book_unavailable req x_api_key uuid4 (st : State Dict) :
  authorized API_KEY x_api_key ->
  Forall (fun s => ¬ s = slot_of (model_dump req)) (SLOTS st) ->
  book API_KEY req x_api_key uuid4 st = (Raise slot_unavailable, st).
Proof.
  intros Ha Hs. unfold book. rewrite guard_passes by assumption.
  unfold bind, get_SLOTS.
  apply (Forall_false_iff _ _ _ (book_match_iff req)) in Hs.
  apply find_absent in Hs. rewrite Hs. reflexivity.
Qed.

Lemma book_success req x_api_key uuid4 (st : State Dict) l1 l2 :
  authorized API_KEY x_api_key ->
  SLOTS st = l1 ++ slot_of (model_dump req) :: l2 ->
  Forall (fun s => ¬ s = slot_of (model_dump req)) l1 ->
  book API_KEY req x_api_key uuid4 st
  = (Return (BookingResponse (short_id uuid4) "created" (model_dump req)),
     mkState (l1 ++ l2)
             (<[short_id uuid4 := model_dump req]> (BOOKINGS st))
             (MESSAGES st)).
Proof.
  intros Ha Hs Hl1. unfold book. rewrite guard_passes by assumption.
  unfold bind, get_SLOTS.
  pose proof Hl1 as Hl1'.
  apply (Forall_false_iff _ _ _ (book_match_iff req)) in Hl1'.
  assert (Hm : String.eqb (Slot.start (slot_of (model_dump req))) (br_start req)
               && String.eqb (Slot.end_ (slot_of (model_dump req))) (br_end req)
               && String.eqb (Slot.provider (slot_of (model_dump req)))
                    (br_provider req) = true)
    by (apply book_match_iff; reflexivity).
  rewrite Hs, (find_at_first _ _ _ _ Hl1' Hm).
  unfold SLOTS_remove. rewrite Hs, list_remove_first by assumption.
  unfold BOOKINGS_setitem, BOOKINGS_getitem; simpl.
  rewrite lookup_insert_eq. reflexivity.
Qed.

Lemma book_cases req x_api_key uuid4 (st : State Dict) :
  (¬ authorized API_KEY x_api_key
   ∧ book API_KEY req x_api_key uuid4 st = (Raise unauthorized_error, st))
  ∨ (authorized API_KEY x_api_key
     ∧ Forall (fun s => ¬ s = slot_of (model_dump req)) (SLOTS st)
     ∧ book API_KEY req x_api_key uuid4 st = (Raise slot_unavailable, st))
  ∨ (authorized API_KEY x_api_key
     ∧ ∃ l1 l2,
         SLOTS st = l1 ++ slot_of (model_dump req) :: l2
         ∧ Forall (fun s => ¬ s = slot_of (model_dump req)) l1
         ∧ book API_KEY req x_api_key uuid4 st
           = (Return (BookingResponse (short_id uuid4) "created" (model_dump req)),
              mkState (l1 ++ l2)
                      (<[short_id uuid4 := model_dump req]> (BOOKINGS st))
                      (MESSAGES st))).
Proof.
  destruct (require_key_cases x_api_key st) as [[Ha _]|[Hn E]].
  2:{ left. split; [assumption|]. unfold book, bind. rewrite E. reflexivity. }
  right.
  destruct (find (fun s => String.eqb (Slot.start s) (br_start req)
                           && String.eqb (Slot.end_ s) (br_end req)
                           && String.eqb (Slot.provider s) (br_provider req))
                 (SLOTS st)) as [m|] eqn:Hf.
  - right. split; [assumption|].
    apply find_first in Hf. destruct Hf as (l1 & l2 & Hs & Hl1 & Hm).
    apply (Forall_false_iff _ _ _ (book_match_iff req)) in Hl1.
    apply book_match_iff in Hm. subst m.
    exists l1, l2. eauto using book_success.
  - left. apply find_absent in Hf.
    apply (Forall_false_iff _ _ _ (book_match_iff req)) in Hf.
    eauto using book_unavailable.
Qed.

Lemma cancel_unknown req x_api_key (st : State Dict) :
  authorized API_KEY x_api_key ->
  BOOKINGS st !! cr_booking_id req = None ->
  cancel API_KEY req x_api_key st = (Raise not_found, st).
Proof.
  intros Ha Hb. unfold cancel. rewrite guard_passes by assumption.
  unfold bind, get_BOOKINGS. rewrite (booking_unknown _ _ Hb). reflexivity.
Qed.

Lemma cancel_success req x_api_key (st : State Dict) old :
  authorized API_KEY x_api_key ->
  BOOKINGS st !! cr_booking_id req = Some old ->
  cancel API_KEY req x_api_key st
  = (Return (CancelResponse (cr_booking_id req) "canceled"
               (or_default (cr_reason req) "unspecified")),
     mkState (SLOTS st ++ [slot_of old])
             (delete (cr_booking_id req) (BOOKINGS st))
             (MESSAGES st)).
Proof.
  intros Ha Hb. unfold cancel. rewrite guard_passes by assumption.
  unfold bind, get_BOOKINGS. rewrite (booking_known _ _ _ Hb).
  unfold BOOKINGS_pop. rewrite Hb. reflexivity.
Qed.

Lemma cancel_cases req x_api_key (st : State Dict) :
  (¬ authorized API_KEY x_api_key
   ∧ cancel API_KEY req x_api_key st = (Raise unauthorized_error, st))
  ∨ (authorized API_KEY x_api_key
     ∧ BOOKINGS st !! cr_booking_id req = None
     ∧ cancel API_KEY req x_api_key st = (Raise not_found, st))
  ∨ (authorized API_KEY x_api_key
     ∧ ∃ old,
         BOOKINGS st !! cr_booking_id req = Some old
         ∧ cancel API_KEY req x_api_key st
           = (Return (CancelResponse (cr_booking_id req) "canceled"
                        (or_default (cr_reason req) "unspecified")),
              mkState (SLOTS st ++ [slot_of old])
                      (delete (cr_booking_id req) (BOOKINGS st))
                      (MESSAGES st))).
Proof.
  destruct (require_key_cases x_api_key st) as [[Ha _]|[Hn E]].
  2:{ left. split; [assumption|]. unfold cancel, bind. rewrite E. reflexivity. }
  right.
  destruct (BOOKINGS st !! cr_booking_id req) as [old|] eqn:Hb.
  - right. eauto 10 using cancel_success.
  - left. auto using cancel_unknown.
Qed.

(** The three handlers that leave the pool and the bookings alone. *)
Lemma list_slots_state date provider x_api_key (st : State Dict) :
  snd (list_slots API_KEY lower date provider x_api_key st) = st.
Proof.
  unfold list_slots, bind.
  destruct (require_key_cases x_api_key st) as [[_ E]|[_ E]]; rewrite E;
    reflexivity.
Qed.

Lemma insurance_verify_state req x_api_key (st : State Dict) :
  snd (insurance_verify API_KEY req x_api_key st) = st.
Proof.
  unfold insurance_verify, bind.
  destruct (require_key_cases x_api_key st) as [[_ E]|[_ E]]; rewrite E;
    reflexivity.
Qed.

Lemma send_message_state req x_api_key uuid4 (st : State Dict) :
  SLOTS (snd (send_message API_KEY req x_api_key uuid4 st)) = SLOTS st
  ∧ BOOKINGS (snd (send_message API_KEY req x_api_key uuid4 st)) = BOOKINGS st.
Proof.
  unfold send_message, bind.
  destruct (require_key_cases x_api_key st) as [[_ E]|[_ E]]; rewrite E;
    split; reflexivity.
Qed.

(** *** Reschedule *)

(** C2: a reschedule succeeds exactly when the key is accepted, the
    booking identifier is known and the pool has a slot with the new start
    and end. It then removes the first such slot of the pool, whatever its
    provider, appends a slot with the booking's old start, old end and
    provider at the end of the pool, overwrites the start and end of the
    booking stored under the same identifier and keeps its other fields,
    and answers with the identifier, the status "rescheduled" and the
    updated record. *)
Theorem reschedule_moves_booking
    (req : RescheduleRequest) (x_api_key : option string) (st : State Dict) :
  (∀ old l1 m l2,
      authorized API_KEY x_api_key ->
      BOOKINGS st !! rr_booking_id req = Some old ->
      SLOTS st = l1 ++ m :: l2 ->
      Forall (fun s => ¬ (Slot.start s = rr_new_start req
                          ∧ Slot.end_ s = rr_new_end req)) l1 ->
      Slot.start m = rr_new_start req ->
      Slot.end_ m = rr_new_end req ->
      reschedule API_KEY req x_api_key st
      = (Return (BookingResponse (rr_booking_id req) "rescheduled"
                   {| Booking.patient_ref := Booking.patient_ref old;
                      Booking.start := rr_new_start req;
                      Booking.end_ := rr_new_end req;
                      Booking.provider := Booking.provider old;
                      Booking.visit_type := Booking.visit_type old |}),
         {| SLOTS := l1 ++ l2 ++ [{| Slot.start := Booking.start old;
                                     Slot.end_ := Booking.end_ old;
                                     Slot.provider := Booking.provider old |}];
            BOOKINGS :=
              <[rr_booking_id req :=
                  {| Booking.patient_ref := Booking.patient_ref old;
                     Booking.start := rr_new_start req;
                     Booking.end_ := rr_new_end req;
                     Booking.provider := Booking.provider old;
                     Booking.visit_type := Booking.visit_type old |}]>
                (BOOKINGS st);
            MESSAGES := MESSAGES st |}))
  ∧ (∀ r st',
      reschedule API_KEY req x_api_key st = (Return r, st') ->
      authorized API_KEY x_api_key
      ∧ ∃ old l1 m l2,
          BOOKINGS st !! rr_booking_id req = Some old
          ∧ SLOTS st = l1 ++ m :: l2
          ∧ Forall (fun s => ¬ (Slot.start s = rr_new_start req
                                ∧ Slot.end_ s = rr_new_end req)) l1
          ∧ Slot.start m = rr_new_start req
          ∧ Slot.end_ m = rr_new_end req).
Proof.
  assert (Hiv : ∀ s, interval s = (rr_new_start req, rr_new_end req)
                     <-> Slot.start s = rr_new_start req
                         ∧ Slot.end_ s = rr_new_end req).
  { intros s. unfold interval. split; [intros [= -> ->]|intros [-> ->]]; auto. }
  split.
  - intros old l1 m l2 Ha Hb Hs Hl1 Hm1 Hm2.
    apply (reschedule_success req x_api_key st old l1 m l2 Ha Hb Hs).
    + eapply Forall_impl; [exact Hl1|]. intros s Hn Hi. apply Hn, Hiv, Hi.
    + apply Hiv. auto.
  - intros r st' Hr.
    destruct (reschedule_cases req x_api_key st)
      as [[_ E]|[(_ & _ & E)|[(_ & _ & _ & E)|(Ha & old & l1 & m & l2 & Hb & Hs & Hl1 & Hm & _)]]];
      try (rewrite E in Hr; discriminate).
    split; [assumption|]. exists old, l1, m, l2.
    apply Hiv in Hm. destruct Hm. repeat split; try assumption.
    eapply Forall_impl; [exact Hl1|]. intros s Hn Hi. apply Hn, Hiv, Hi.
Qed.

(** C8: a reschedule that fails changes nothing. With an unknown booking
    identifier it raises the 404 error, with a known identifier and no
    slot of the pool at the new start and end it raises the 400 error, and
    whenever it raises, the store after the call (the targeted booking,
    the whole booking collection and the slot pool) is the store before
    it. *)
Theorem failed_reschedule_changes_nothing
    (req : RescheduleRequest) (x_api_key : option string) (st : State Dict) :
  (authorized API_KEY x_api_key ->
   BOOKINGS st !! rr_booking_id req = None ->
   reschedule API_KEY req x_api_key st
   = (Raise (HTTPException 404 "Booking not found"), st))
  ∧ (authorized API_KEY x_api_key ->
     is_Some (BOOKINGS st !! rr_booking_id req) ->
     Forall (fun s => ¬ (Slot.start s = rr_new_start req
                         ∧ Slot.end_ s = rr_new_end req)) (SLOTS st) ->
     reschedule API_KEY req x_api_key st
     = (Raise (HTTPException 400 "New slot not available"), st))
  ∧ (∀ e st',
      reschedule API_KEY req x_api_key st = (Raise e, st') -> st' = st).
Proof.
  split; [|split].
  - apply reschedule_unknown.
  - intros Ha [old Hb] Hs.
    apply (reschedule_unavailable req x_api_key st old Ha Hb).
    eapply Forall_impl; [exact Hs|].
    intros s Hn Hi. apply Hn. unfold interval in Hi.
    injection Hi as -> ->. auto.
  - intros e st' Hr.
    destruct (reschedule_cases req x_api_key st)
      as [[_ E]|[(_ & _ & E)|[(_ & _ & _ & E)|(_ & old & l1 & m & l2 & _ & _ & _ & _ & E)]]];
      rewrite E in Hr; congruence.
Qed.

(** *** The intervals held by the pool and the bookings *)

Lemma NoDup_submseteq_inv {A} (l k : list A) : l ⊆+ k -> NoDup k -> NoDup l.
Proof.
  intros Hsub Hk. apply submseteq_Permutation in Hsub as [k' Hk'].
  rewrite Hk' in Hk. apply NoDup_app in Hk. tauto.
Qed.

Lemma booked_insert (bookings : gmap string Booking.t) id b :
  slot_of <$> (map_to_list (<[id:=b]> bookings)).*2
  ≡ₚ slot_of b :: (slot_of <$> (map_to_list (delete id bookings)).*2).
Proof.
  rewrite <- insert_delete_eq.
  rewrite map_to_list_insert by apply lookup_delete_eq. reflexivity.
Qed.

Lemma booked_delete (bookings : gmap string Booking.t) id old :
  bookings !! id = Some old ->
  slot_of <$> (map_to_list bookings).*2
  ≡ₚ slot_of old :: (slot_of <$> (map_to_list (delete id bookings)).*2).
Proof.
  intros H. rewrite <- (map_to_list_delete bookings id old H). reflexivity.
Qed.

Lemma booked_delete_sub (bookings : gmap string Booking.t) id :
  slot_of <$> (map_to_list (delete id bookings)).*2
  ⊆+ slot_of <$> (map_to_list bookings).*2.
Proof.
  destruct (bookings !! id) as [old|] eqn:H.
  - rewrite (booked_delete bookings id old H). apply submseteq_cons. reflexivity.
  - rewrite delete_id by assumption. reflexivity.
Qed.

(** Booking moves an interval from the pool to the bookings (and drops the
    interval of a record it overwrites). *)
Lemma intervals_book (st : State Dict) l1 l2 id b :
  SLOTS st = l1 ++ slot_of b :: l2 ->
  intervals (mkState (l1 ++ l2) (<[id:=b]> (BOOKINGS st)) (MESSAGES st))
  ⊆+ intervals st.
Proof.
  intros Hs. unfold intervals, booked; simpl. rewrite Hs.
  apply fmap_submseteq.
  rewrite booked_insert.
  rewrite <- !app_assoc. simpl.
  rewrite <- !Permutation_middle.
  apply submseteq_skip, submseteq_skips_l, submseteq_skips_l, booked_delete_sub.
Qed.

(** Cancelling moves an interval from the bookings back to the pool. *)
Lemma intervals_cancel (st : State Dict) id old :
  BOOKINGS st !! id = Some old ->
  intervals (mkState (SLOTS st ++ [slot_of old]) (delete id (BOOKINGS st))
                     (MESSAGES st))
  ≡ₚ intervals st.
Proof.
  intros Hb. unfold intervals, booked; simpl.
  apply fmap_Permutation.
  rewrite (booked_delete _ _ _ Hb), <- app_assoc. reflexivity.
Qed.

(** Rescheduling swaps the intervals of a booking and of a pool slot. *)
Lemma intervals_reschedule (st : State Dict) id old l1 m l2 new_start new_end :
  BOOKINGS st !! id = Some old ->
  SLOTS st = l1 ++ m :: l2 ->
  interval m = (new_start, new_end) ->
  intervals (mkState (l1 ++ l2 ++ [slot_of old])
                     (<[id := moved old new_start new_end]> (BOOKINGS st))
                     (MESSAGES st))
  ≡ₚ intervals st.
Proof.
  intros Hb Hs Hm. unfold intervals, booked; simpl. rewrite Hs.
  rewrite booked_insert, (booked_delete _ _ _ Hb).
  repeat (rewrite fmap_app || rewrite fmap_cons). rewrite Hm. simpl.
  change (interval (slot_of (moved old new_start new_end)))
    with (new_start, new_end).
  rewrite <- !app_assoc. simpl.
  rewrite <- !Permutation_middle.
  apply Permutation_swap.
Qed.

(** *** The seeded store *)

Lemma seeded_pool (base_date : string) :
  SLOTS (initial_state (Dict:=Dict) base_date)
  = [ Slot.mk (base_date +:+ "T09:00:00") (base_date +:+ "T09:40:00") "Dr. Lee";
      Slot.mk (base_date +:+ "T09:00:00") (base_date +:+ "T09:20:00") "NP Garcia";
      Slot.mk (base_date +:+ "T10:00:00") (base_date +:+ "T10:40:00") "Dr. Lee";
      Slot.mk (base_date +:+ "T10:00:00") (base_date +:+ "T10:20:00") "NP Garcia";
      Slot.mk (base_date +:+ "T11:00:00") (base_date +:+ "T11:40:00") "Dr. Lee";
      Slot.mk (base_date +:+ "T11:00:00") (base_date +:+ "T11:20:00") "NP Garcia";
      Slot.mk (base_date +:+ "T13:00:00") (base_date +:+ "T13:40:00") "Dr. Lee";
      Slot.mk (base_date +:+ "T13:00:00") (base_date +:+ "T13:20:00") "NP Garcia";
      Slot.mk (base_date +:+ "T14:00:00") (base_date +:+ "T14:40:00") "Dr. Lee";
      Slot.mk (base_date +:+ "T14:00:00") (base_date +:+ "T14:20:00") "NP Garcia";
      Slot.mk (base_date +:+ "T15:00:00") (base_date +:+ "T15:40:00") "Dr. Lee";
      Slot.mk (base_date +:+ "T15:00:00") (base_date +:+ "T15:20:00") "NP Garcia" ].
Proof. reflexivity. Qed.

Lemma seeded_bookings (base_date : string) :
  BOOKINGS (initial_state (Dict:=Dict) base_date) = ∅.
Proof. reflexivity. Qed.

Lemma seeded_messages (base_date : string) :
  MESSAGES (initial_state (Dict:=Dict) base_date) = [].
Proof. reflexivity. Qed.

Lemma append_inj_l (p x y : string) : p +:+ x = p +:+ y -> x = y.
Proof.
  induction p as [|c p IH]; simpl; [auto|]. intros [= H]. auto.
Qed.

Lemma NoDup_seeded_intervals (base_date : string) :
  NoDup (intervals (initial_state (Dict:=Dict) base_date)).
Proof.
  unfold intervals, booked.
  rewrite seeded_pool, seeded_bookings, map_to_list_empty, app_nil_r.
  change (NoDup ((fun p : string * string => (base_date +:+ p.1, base_date +:+ p.2))
                   <$> [ ("T09:00:00", "T09:40:00"); ("T09:00:00", "T09:20:00");
                         ("T10:00:00", "T10:40:00"); ("T10:00:00", "T10:20:00");
                         ("T11:00:00", "T11:40:00"); ("T11:00:00", "T11:20:00");
                         ("T13:00:00", "T13:40:00"); ("T13:00:00", "T13:20:00");
                         ("T14:00:00", "T14:40:00"); ("T14:00:00", "T14:20:00");
                         ("T15:00:00", "T15:40:00"); ("T15:00:00", "T15:20:00") ])).
  apply NoDup_fmap_2_strong.
  - intros [a b] [c d] _ _ [= H1 H2].
    apply append_inj_l in H1, H2. simpl in *. congruence.
  - apply (bool_decide_unpack _). vm_compute. exact I.
Qed.

(** In every reachable store the intervals of the pool slots and of the
    active bookings are pairwise distinct. *)
Lemma reachable_intervals_distinct base_date (st : State Dict) :
  reachable API_KEY lower base_date st -> NoDup (intervals st).
Proof.
  induction 1 as [|st r x_api_key Hr IH].
  - apply NoDup_seeded_intervals.
  - destruct r as [date provider|req uuid4|req|req|req uuid4|req]; simpl.
    + rewrite list_slots_state. exact IH.
    + destruct (book_cases req x_api_key uuid4 st)
        as [[_ E]|[(_ & _ & E)|(_ & l1 & l2 & Hs & _ & E)]];
        rewrite E; simpl; try exact IH.
      eapply NoDup_submseteq_inv; [|exact IH].
      apply intervals_book, Hs.
    + destruct (reschedule_cases req x_api_key st)
        as [[_ E]|[(_ & _ & E)|[(_ & _ & _ & E)
                 |(_ & old & l1 & m & l2 & Hb & Hs & _ & Hm & E)]]];
        rewrite E; simpl; try exact IH.
      rewrite (intervals_reschedule st _ old l1 m l2 _ _ Hb Hs Hm). exact IH.
    + destruct (cancel_cases req x_api_key st)
        as [[_ E]|[(_ & _ & E)|(_ & old & Hb & E)]];
        rewrite E; simpl; try exact IH.
      rewrite (intervals_cancel st _ old Hb). exact IH.
    + destruct (send_message_state req x_api_key uuid4 st) as [Hs Hb].
      unfold intervals, booked. rewrite Hs, Hb. exact IH.
    + rewrite insurance_verify_state. exact IH.
Qed.

Lemma booked_elem (st : State Dict) id b :
  BOOKINGS st !! id = Some b -> slot_of b ∈ booked st.
Proof.
  intros H. unfold booked.
  apply list_elem_of_fmap. exists b. split; [reflexivity|].
  apply list_elem_of_fmap. exists (id, b). split; [reflexivity|].
  apply elem_of_map_to_list, H.
Qed.

Lemma distinct_pool_and_booked (st : State Dict) s id b :
  NoDup (intervals st) ->
  s ∈ SLOTS st -> BOOKINGS st !! id = Some b ->
  interval s ≠ interval (slot_of b).
Proof.
  unfold intervals. rewrite fmap_app. intros Hnd Hs Hb Heq.
  apply NoDup_app in Hnd as (_ & Hdisj & _).
  apply (Hdisj (interval s)).
  - apply list_elem_of_fmap. eauto.
  - rewrite Heq. apply list_elem_of_fmap. eauto using booked_elem.
Qed.

(** C1: in every store reachable from the seeded one by any sequence of
    requests (successful book, reschedule and cancel operations among
    them), no slot of the pool has the start, end and provider of an
    active booking. *)
Theorem booked_slot_not_in_pool
    (base_date : string) (st : State Dict) (s : Slot.t) (id : string)
    (b : Booking.t) :
  reachable API_KEY lower base_date st ->
  s ∈ SLOTS st ->
  BOOKINGS st !! id = Some b ->
  ¬ (Slot.start s = Booking.start b
     ∧ Slot.end_ s = Booking.end_ b
     ∧ Slot.provider s = Booking.provider b).
Proof.
  intros Hr Hs Hb (H1 & H2 & _).
  apply (distinct_pool_and_booked st s id b); auto.
  - eapply reachable_intervals_distinct, Hr.
  - unfold interval, slot_of; simpl. congruence.
Qed.

(** *** Book *)

Local Abbreviation requested req :=
  {| Slot.start := br_start req;
     Slot.end_ := br_end req;
     Slot.provider := br_provider req |}.

Lemma first_occurrence (l : list Slot.t) (x : Slot.t) :
  x ∈ l -> ∃ l1 l2, l = l1 ++ x :: l2 ∧ Forall (fun s => ¬ s = x) l1.
Proof.
  intros H. apply list_elem_of_split_l in H as (l1 & l2 & -> & Hx).
  exists l1, l2. split; [reflexivity|].
  apply Forall_forall. intros s Hs ->. contradiction.
Qed.

(** Once a booking holds a triple in a reachable store, no pool slot has
    that triple. *)
Lemma booked_triple_unavailable base_date (st : State Dict) id b :
  reachable API_KEY lower base_date st ->
  BOOKINGS st !! id = Some b ->
  Forall (fun s => ¬ s = slot_of b) (SLOTS st).
Proof.
  intros Hr Hb. apply Forall_forall. intros s Hs ->.
  apply (distinct_pool_and_booked st (slot_of b) id b); auto.
  eapply reachable_intervals_distinct, Hr.
Qed.

(** C3 (amended): for a book request with an accepted key: if no slot of
    the pool has the request's start, end and provider, the call raises
    the 400 error "Slot not available" and changes nothing; otherwise the
    first such slot, and only it, is removed from the pool, the request's
    fields are stored as a booking record under the generated identifier
    (the first 8 characters of a newly drawn UUID, which replaces a record
    already stored under it), and the answer carries that identifier, the
    status "created" and the stored record. On a reachable store, booking
    the same triple again right after a successful booking raises the 400
    error. *)
Theorem book_takes_slot
    (req : BookRequest) (x_api_key : option string) (uuid4 : N)
    (st : State Dict) :
  authorized API_KEY x_api_key ->
  (requested req ∉ SLOTS st ->
   book API_KEY req x_api_key uuid4 st
   = (Raise (HTTPException 400 "Slot not available"), st))
  ∧ (requested req ∈ SLOTS st ->
     ∃ l1 l2,
       SLOTS st = l1 ++ (requested req :: l2)
       ∧ (requested req ∉ l1)
       ∧ book API_KEY req x_api_key uuid4 st
         = (Return (BookingResponse (short_id uuid4) "created"
                      {| Booking.patient_ref := br_patient_ref req;
                         Booking.start := br_start req;
                         Booking.end_ := br_end req;
                         Booking.provider := br_provider req;
                         Booking.visit_type := br_visit_type req |}),
            {| SLOTS := l1 ++ l2;
               BOOKINGS :=
                 <[short_id uuid4 :=
                     {| Booking.patient_ref := br_patient_ref req;
                        Booking.start := br_start req;
                        Booking.end_ := br_end req;
                        Booking.provider := br_provider req;
                        Booking.visit_type := br_visit_type req |}]>
                   (BOOKINGS st);
               MESSAGES := MESSAGES st |}))
  ∧ (∀ base_date r st' req2 x_api_key2 uuid4',
      reachable API_KEY lower base_date st ->
      book API_KEY req x_api_key uuid4 st = (Return r, st') ->
      authorized API_KEY x_api_key2 ->
      br_start req2 = br_start req ->
      br_end req2 = br_end req ->
      br_provider req2 = br_provider req ->
      book API_KEY req2 x_api_key2 uuid4' st'
      = (Raise (HTTPException 400 "Slot not available"), st')).
Proof.
  intros Ha. split; [|split].
  - intros Hn. apply book_unavailable; [assumption|].
    apply Forall_forall. intros s Hs ->. apply Hn, Hs.
  - intros Hin. apply first_occurrence in Hin as (l1 & l2 & Hs & Hl1).
    exists l1, l2. split; [assumption|]. split.
    + intros Hx. rewrite Forall_forall in Hl1. exact (Hl1 _ Hx eq_refl).
    + apply (book_success req x_api_key uuid4 st l1 l2 Ha Hs Hl1).
  - intros base_date r st' req2 key2 u2 Hr Hbook Ha2 H1 H2 H3.
    assert (Hr' : reachable API_KEY lower base_date st').
    { replace st' with (snd (handle API_KEY lower (Book req uuid4) x_api_key st))
        by (simpl; rewrite Hbook; reflexivity).
      apply reachable_step, Hr. }
    assert (Hb : BOOKINGS st' !! short_id uuid4 = Some (model_dump req)).
    { destruct (book_cases req x_api_key uuid4 st)
        as [[_ E]|[(_ & _ & E)|(_ & l1 & l2 & _ & _ & E)]];
        rewrite E in Hbook; try discriminate.
      injection Hbook as _ <-. simpl. apply lookup_insert_eq. }
    apply book_unavailable; [assumption|].
    replace (slot_of (model_dump req2)) with (slot_of (model_dump req))
      by (unfold slot_of, model_dump; simpl; congruence).
    exact (booked_triple_unavailable base_date st' _ _ Hr' Hb).
Qed.

(** *** Cancel *)

(** C4 (amended): for a cancel request with an accepted key: with an
    unknown booking identifier the call raises the 404 error and changes
    nothing; otherwise the booking is removed from the booking collection,
    a slot with its start, end and provider is appended to the pool, and
    the answer carries the identifier, the status "canceled" and the
    given reason when it is a non-empty string, or "unspecified" when no
    reason or an empty one was given; a second cancel of the same
    identifier then raises the 404 error. *)
Theorem cancel_returns_slot
    (req : CancelRequest) (x_api_key : option string) (st : State Dict) :
  authorized API_KEY x_api_key ->
  (BOOKINGS st !! cr_booking_id req = None ->
   cancel API_KEY req x_api_key st
   = (Raise (HTTPException 404 "Booking not found"), st))
  ∧ (∀ old,
      BOOKINGS st !! cr_booking_id req = Some old ->
      ∃ reason st',
        cancel API_KEY req x_api_key st
        = (Return (CancelResponse (cr_booking_id req) "canceled" reason), st')
        ∧ (cr_reason req = None ∨ cr_reason req = Some "" ->
           reason = "unspecified")
        ∧ (∀ given, cr_reason req = Some given -> given ≠ "" -> reason = given)
        ∧ BOOKINGS st' = delete (cr_booking_id req) (BOOKINGS st)
        ∧ SLOTS st' = SLOTS st ++ [{| Slot.start := Booking.start old;
                                      Slot.end_ := Booking.end_ old;
                                      Slot.provider := Booking.provider old |}]
        ∧ MESSAGES st' = MESSAGES st
        ∧ ∀ req2 x_api_key2,
            authorized API_KEY x_api_key2 ->
            cr_booking_id req2 = cr_booking_id req ->
            cancel API_KEY req2 x_api_key2 st'
            = (Raise (HTTPException 404 "Booking not found"), st')).
Proof.
  intros Ha. split.
  - apply cancel_unknown, Ha.
  - intros old Hb. eexists _, _. split; [apply cancel_success; eassumption|].
    simpl. repeat split.
    + intros [->| ->]; reflexivity.
    + intros given -> Hne. simpl.
      apply String.eqb_neq in Hne. rewrite Hne. reflexivity.
    + intros req2 key2 Ha2 Hid. apply cancel_unknown; [assumption|].
      simpl. rewrite Hid. apply lookup_delete_eq.
Qed.

(** *** Conservation *)

Lemma map_size_delete_known (bookings : gmap string Booking.t) id old :
  bookings !! id = Some old -> size bookings = S (size (delete id bookings)).
Proof.
  intros H. rewrite <- (insert_id bookings id old H) at 1.
  rewrite <- insert_delete_eq.
  apply map_size_insert_None, lookup_delete_eq.
Qed.

(** C10 (amended): a successful book removes exactly one slot and, when
    the generated identifier is not already the key of a booking, adds
    exactly one booking, so that the sum of the pool size and the booking
    count is conserved; when the identifier is already in use the record
    under it is replaced and the booking count stays the same. A
    successful cancel removes exactly one booking and appends exactly one
    slot, conserving the sum. A successful reschedule leaves the pool size
    and the booking count each unchanged. *)
Theorem mutations_conserve_counts (x_api_key : option string) (st : State Dict) :
  (∀ req uuid4 r st',
      book API_KEY req x_api_key uuid4 st = (Return r, st') ->
      S (length (SLOTS st')) = length (SLOTS st)
      ∧ (BOOKINGS st !! short_id uuid4 = None ->
         size (BOOKINGS st') = S (size (BOOKINGS st))
         ∧ length (SLOTS st') + size (BOOKINGS st')
           = length (SLOTS st) + size (BOOKINGS st))
      ∧ (is_Some (BOOKINGS st !! short_id uuid4) ->
         size (BOOKINGS st') = size (BOOKINGS st)))
  ∧ (∀ req r st',
      cancel API_KEY req x_api_key st = (Return r, st') ->
      S (size (BOOKINGS st')) = size (BOOKINGS st)
      ∧ length (SLOTS st') = S (length (SLOTS st))
      ∧ length (SLOTS st') + size (BOOKINGS st')
        = length (SLOTS st) + size (BOOKINGS st))
  ∧ (∀ req r st',
      reschedule API_KEY req x_api_key st = (Return r, st') ->
      length (SLOTS st') = length (SLOTS st)
      ∧ size (BOOKINGS st') = size (BOOKINGS st)
      ∧ length (SLOTS st') + size (BOOKINGS st')
        = length (SLOTS st) + size (BOOKINGS st)).
Proof.
  split; [|split].
  - intros req uuid4 r st' Hbook.
    destruct (book_cases req x_api_key uuid4 st)
      as [[_ E]|[(_ & _ & E)|(_ & l1 & l2 & Hs & _ & E)]];
      rewrite E in Hbook; try discriminate.
    injection Hbook as _ <-. simpl.
    assert (Hlen : S (length (l1 ++ l2)) = length (SLOTS st)).
    { rewrite Hs, !length_app. simpl. lia. }
    split; [exact Hlen|]. split.
    + intros Hfresh. rewrite (map_size_insert_None _ _ _ Hfresh). lia.
    + intros Hused. apply map_size_insert_Some, Hused.
  - intros req r st' Hc.
    destruct (cancel_cases req x_api_key st)
      as [[_ E]|[(_ & _ & E)|(_ & old & Hb & E)]];
      rewrite E in Hc; try discriminate.
    injection Hc as _ <-. simpl.
    rewrite (map_size_delete_known _ _ _ Hb), length_app. simpl. lia.
  - intros req r st' Hr.
    destruct (reschedule_cases req x_api_key st)
      as [[_ E]|[(_ & _ & E)|[(_ & _ & _ & E)
               |(_ & old & l1 & m & l2 & Hb & Hs & _ & _ & E)]]];
      rewrite E in Hr; try discriminate.
    injection Hr as _ <-. simpl.
    rewrite (map_size_insert_Some _ _ (BOOKINGS st)) by eauto.
    rewrite Hs, !length_app. simpl. lia.
Qed.

(** *** Generated identifiers *)

Lemma append_cons c (s t : string) : String c s +:+ t = String c (s +:+ t).
Proof. reflexivity. Qed.

Lemma length_append (s t : string) :
  String.length (s +:+ t) = String.length s + String.length t.
Proof.
  induction s as [|c s IH]; [reflexivity|].
  rewrite append_cons. simpl. rewrite IH. reflexivity.
Qed.

Lemma length_zero_padding (k : nat) :
  String.length (String.concat "" (repeat "0" k)) = k.
Proof.
  induction k as [|k IH]; [reflexivity|].
  destruct k as [|k]; [reflexivity|].
  change (repeat "0" (S (S k))) with ("0" :: repeat "0" (S k)).
  change (String.concat "" ("0" :: repeat "0" (S k)))
    with ("0" +:+ "" +:+ String.concat "" (repeat "0" (S k))).
  rewrite !length_append, IH. reflexivity.
Qed.

Lemma length_fmt_032x (n : N) : 32 ≤ String.length (fmt_032x n).
Proof.
  unfold fmt_032x. rewrite length_append, length_zero_padding. lia.
Qed.

Lemma length_substring_0 (n : nat) (s : string) :
  n ≤ String.length s -> String.length (substring 0 n s) = n.
Proof.
  revert s. induction n as [|n IH]; intros s Hn.
  - destruct s; reflexivity.
  - destruct s as [|c s]; simpl in *; [lia|]. rewrite IH; [reflexivity|lia].
Qed.

Lemma substring_0_append (n : nat) (s t : string) :
  String.length s = n -> substring 0 n (s +:+ t) = s.
Proof.
  revert s. induction n as [|n IH]; intros s Hn.
  - destruct s; [|discriminate]. destruct t; reflexivity.
  - destruct s as [|c s]; [discriminate|].
    rewrite append_cons. simpl. rewrite IH; [reflexivity|].
    simpl in Hn. lia.
Qed.

(** The identifier is the first eight hexadecimal digits of the UUID. *)
Lemma short_id_digits (uuid4 : N) :
  short_id uuid4 = substring 0 8 (fmt_032x uuid4).
Proof.
  unfold short_id, str_uuid. apply substring_0_append.
  apply length_substring_0. pose proof (length_fmt_032x uuid4). lia.
Qed.

Lemma short_id_length (uuid4 : N) : String.length (short_id uuid4) = 8.
Proof.
  rewrite short_id_digits. apply length_substring_0.
  pose proof (length_fmt_032x uuid4). lia.
Qed.

(** *** Listing *)

Lemma list_slots_unfiltered x_api_key (st : State Dict) :
  authorized API_KEY x_api_key ->
  list_slots API_KEY lower None None x_api_key st
  = (Return (SlotsResponse (take 20 (SLOTS st))), st).
Proof.
  intros Ha. unfold list_slots. rewrite guard_passes by assumption.
  reflexivity.
Qed.

Lemma prefix_append (p s : string) : String.prefix p (p +:+ s) = true.
Proof.
  induction p as [|c p IH]; [destruct s; reflexivity|].
  rewrite append_cons. simpl. rewrite IH.
  destruct (ascii_dec c c); [reflexivity|contradiction].
Qed.

Lemma filter_twice (f g : Slot.t -> bool) (l : list Slot.t) :
  List.filter g (List.filter f l) = List.filter (fun s => f s && g s) l.
Proof.
  induction l as [|x l IH]; [reflexivity|]. simpl.
  destruct (f x); simpl; [|exact IH].
  destruct (g x); simpl; rewrite IH; reflexivity.
Qed.

Lemma filter_all (f : Slot.t -> bool) (l : list Slot.t) :
  (∀ s, f s = true) -> List.filter f l = l.
Proof.
  intros Hf. induction l as [|x l IH]; [reflexivity|].
  simpl. rewrite Hf, IH. reflexivity.
Qed.

Lemma prefix_empty (s : string) : String.prefix "" s = true.
Proof. destruct s; reflexivity. Qed.

(** The date pass of [list_slots] is a filter by [date_keeps]: an empty
    date string is skipped by the code and is a prefix of every start. *)
Lemma date_pass (date : option string) (l : list Slot.t) :
  match date with
  | Some d => if truthy date
              then List.filter (fun s => startswith (Slot.start s) d) l
              else l
  | None => l
  end = List.filter (date_keeps date) l.
Proof.
  destruct date as [d|]; simpl.
  - destruct (String.eqb_spec d "") as [->|Hne]; simpl; [|reflexivity].
    symmetry. apply filter_all. intros s. apply prefix_empty.
  - symmetry. apply filter_all. reflexivity.
Qed.

Lemma provider_pass (provider : option string) (l : list Slot.t) :
  match provider with
  | Some p => if truthy provider
              then List.filter
                     (fun s => String.eqb (lower (Slot.provider s)) (lower p)) l
              else l
  | None => l
  end = List.filter (provider_keeps_nonempty lower provider) l.
Proof.
  unfold provider_keeps_nonempty. destruct provider as [p|]; simpl.
  - destruct (String.eqb_spec p "") as [->|Hne]; simpl.
    + symmetry. apply filter_all. reflexivity.
    + reflexivity.
  - symmetry. apply filter_all. reflexivity.
Qed.

(** What the two passes and the slice of [list_slots] return. *)
Lemma list_slots_run
    (date provider x_api_key : option string) (st : State Dict) :
  authorized API_KEY x_api_key ->
  list_slots API_KEY lower date provider x_api_key st
  = (Return (SlotsResponse
               (take 20 (List.filter (provider_keeps_nonempty lower provider)
                           (List.filter (date_keeps date) (SLOTS st))))),
     st).
Proof.
  intros Ha. unfold list_slots. rewrite guard_passes by assumption.
  unfold bind, get_SLOTS, ret.
  rewrite date_pass, provider_pass. reflexivity.
Qed.

(** A listing only shows slots of the pool. *)
Lemma listing_in_pool (f g : Slot.t -> bool) (pool : list Slot.t) s :
  s ∈ take 20 (List.filter g (List.filter f pool)) -> s ∈ pool.
Proof.
  intros H. apply subseteq_take in H. apply list_elem_of_In in H.
  apply List.filter_In in H as [H _].
  apply List.filter_In in H as [H _]. apply list_elem_of_In, H.
Qed.

(** The provider comparison is the one [lower] makes: a slot whose provider
    and the (non-empty) filter have the same [lower] is listed, whatever
    characters they are made of. *)
Lemma list_slots_same_lower
    (provider : string) (x_api_key : option string) (st : State Dict)
    (s : Slot.t) :
  authorized API_KEY x_api_key ->
  provider ≠ "" ->
  SLOTS st = [s] ->
  lower (Slot.provider s) = lower provider ->
  list_slots API_KEY lower None (Some provider) x_api_key st
  = (Return (SlotsResponse [s]), st).
Proof.
  intros Ha Hne Hs Heq.
  rewrite (list_slots_run None (Some provider) x_api_key st Ha), Hs.
  simpl. apply String.eqb_neq in Hne. rewrite Hne, Heq, String.eqb_refl.
  reflexivity.
Qed.

(** *** The seed, book, cancel scenario *)

(** C9: seeding produces exactly 12 slots, all starting on [base_date]
    (tomorrow), among them the 09:00 to 09:40 slot of "Dr. Lee". Booking
    that triple on the seeded store succeeds and returns an identifier of
    8 characters; the triple is then absent from every slot listing;
    cancelling that identifier succeeds and the triple is in the
    (unfiltered) listing again. The 12 seeded slots are 6 of "Dr. Lee" and
    6 of "NP Garcia". *)
Theorem seed_book_cancel_scenario
    (base_date patient_ref visit_type : string) (reason : option string)
    (x_api_key : option string) (uuid4 : N) :
  authorized API_KEY x_api_key ->
  let triple := {| Slot.start := base_date +:+ "T09:00:00";
                   Slot.end_ := base_date +:+ "T09:40:00";
                   Slot.provider := "Dr. Lee" |} in
  let req := {| br_patient_ref := patient_ref;
                br_start := base_date +:+ "T09:00:00";
                br_end := base_date +:+ "T09:40:00";
                br_provider := "Dr. Lee";
                br_visit_type := visit_type |} in
  let st0 : State Dict := initial_state base_date in
  length (SLOTS st0) = 12
  ∧ length (List.filter (fun s => String.eqb (Slot.provider s) "Dr. Lee")
              (SLOTS st0)) = 6
  ∧ length (List.filter (fun s => String.eqb (Slot.provider s) "NP Garcia")
              (SLOTS st0)) = 6
  ∧ Forall (fun s => startswith (Slot.start s) base_date = true) (SLOTS st0)
  ∧ triple ∈ SLOTS st0
  ∧ ∃ booking_id booking st1 said st2 listing2,
      book API_KEY req x_api_key uuid4 st0
      = (Return (BookingResponse booking_id "created" booking), st1)
      ∧ String.length booking_id = 8
      ∧ (∀ date provider,
          ∃ listing1,
            list_slots API_KEY lower date provider x_api_key st1
            = (Return (SlotsResponse listing1), st1)
            ∧ triple ∉ listing1)
      ∧ cancel API_KEY {| cr_booking_id := booking_id; cr_reason := reason |}
          x_api_key st1
        = (Return (CancelResponse booking_id "canceled" said), st2)
      ∧ list_slots API_KEY lower None None x_api_key st2
        = (Return (SlotsResponse listing2), st2)
      ∧ triple ∈ listing2.
Proof.
  intros Ha triple req st0.
  assert (Hpool := seeded_pool base_date). fold st0 in Hpool.
  split; [rewrite Hpool; reflexivity|].
  split; [rewrite Hpool; reflexivity|].
  split; [rewrite Hpool; reflexivity|].
  split.
  { rewrite Hpool. unfold startswith. simpl.
    repeat (constructor; [apply prefix_append|]). constructor. }
  split; [rewrite Hpool; apply list_elem_of_here|].
  assert (Hbook := book_success req x_api_key uuid4 st0 [] _ Ha Hpool
                     (Forall_nil_2 _)).
  set (st1 := mkState _ _ _) in Hbook.
  assert (Hr1 : reachable API_KEY lower base_date st1).
  { replace st1 with (snd (handle API_KEY lower (Book req uuid4) x_api_key st0))
      by (simpl; rewrite Hbook; reflexivity).
    apply reachable_step, reachable_init. }
  assert (Hb1 : BOOKINGS st1 !! short_id uuid4 = Some (model_dump req))
    by apply lookup_insert_eq.
  assert (Hcancel := cancel_success
                       {| cr_booking_id := short_id uuid4; cr_reason := reason |}
                       x_api_key st1 _ Ha Hb1).
  set (st2 := mkState _ _ _) in Hcancel.
  eexists _, _, st1, _, st2, _.
  split; [exact Hbook|].
  split; [apply short_id_length|].
  split.
  { intros date provider. eexists.
    split; [apply list_slots_run, Ha|].
    intros Hin. apply listing_in_pool in Hin.
    pose proof (booked_triple_unavailable base_date st1 _ _ Hr1 Hb1) as Hfa.
    rewrite Forall_forall in Hfa. exact (Hfa _ Hin eq_refl). }
  split; [exact Hcancel|].
  split; [apply list_slots_unfiltered, Ha|].
  rewrite take_ge by (simpl; lia).
  apply elem_of_app. right. apply list_elem_of_here.
Qed.


(** *** Insurance *)

(** C6: with an accepted key, insurance verification answers from the
    visit type alone and leaves the store as it was: [covered] is true;
    for the visit type "screening" no pre-authorisation is required, the
    copay estimate is 100.0 and the only step is "No pre-auth required";
    for any other visit type pre-authorisation is required, the copay
    estimate is 150.0 and the steps are the fixed three items; the answer
    is the same on every store and for every two requests with the same
    visit type; a request built without a visit type has "screening". *)
Theorem insurance_verify_by_visit_type
    (req : InsuranceVerifyRequest) (x_api_key : option string)
    (st : State Dict) :
  authorized API_KEY x_api_key ->
  (iv_visit_type req = Some "screening" ->
   insurance_verify API_KEY req x_api_key st
   = (Return (InsuranceResponse true 100%Q false ["No pre-auth required"]), st))
  ∧ (iv_visit_type req ≠ Some "screening" ->
     insurance_verify API_KEY req x_api_key st
     = (Return (InsuranceResponse true 150%Q true
                  ["Submit indication & notes"; "Get auth reference";
                   "Validity 30 days"]), st))
  ∧ (∀ req' (st' : State Dict),
      iv_visit_type req' = iv_visit_type req ->
      fst (insurance_verify API_KEY req' x_api_key st')
      = fst (insurance_verify API_KEY req x_api_key st))
  ∧ (∀ payer cpt_code,
      iv_visit_type (InsuranceVerifyRequest_init payer cpt_code None)
      = Some "screening").
Proof.
  intros Ha. repeat split.
  - intros Hv. unfold insurance_verify. rewrite guard_passes by assumption.
    rewrite Hv. reflexivity.
  - intros Hv. unfold insurance_verify. rewrite guard_passes by assumption.
    rewrite bool_decide_eq_false_2 by assumption. reflexivity.
  - intros req' st' Hv. unfold insurance_verify.
    rewrite !guard_passes by assumption. rewrite Hv. reflexivity.
Qed.

End Properties.

(** ** The properties at the sample stores *)

Example fmt_02d_pads : fmt_02d 9 = "09" ∧ fmt_02d 13 = "13".
Proof. split; reflexivity. Qed.

Example str_uuid_demo : str_uuid demo_uuid = "1f2e3d4c-5b6a-4978-8a9b-0c1d2e3f4a5b".
Proof. vm_compute. reflexivity. Qed.

Example short_id_demo :
  short_id demo_uuid = "1f2e3d4c" ∧ short_id demo_uuid' = "1f2e3d4c".
Proof. split; vm_compute; reflexivity. Qed.

Example ascii_lower_demo : ascii_lower "NP Garcia" = "np garcia".
Proof. reflexivity. Qed.

Lemma demo_key_authorized : authorized demo_key demo_key.
Proof. exists "secret". split; [discriminate|]. split; reflexivity. Qed.

Lemma demo_one_booking_reachable :
  reachable demo_key ascii_lower demo_date demo_one_booking.
Proof.
  exact (reachable_step demo_key ascii_lower demo_date demo_seeded
           (Book demo_book_lee demo_uuid) demo_key
           (reachable_init demo_key ascii_lower demo_date)).
Qed.

Lemma booked_slot_not_in_pool_witness :
  demo_slot_garcia ∈ SLOTS demo_one_booking
  ∧ BOOKINGS demo_one_booking !! "1f2e3d4c" = Some (model_dump demo_book_lee)
  ∧ ¬ (Slot.start demo_slot_garcia = Booking.start (model_dump demo_book_lee)
       ∧ Slot.end_ demo_slot_garcia = Booking.end_ (model_dump demo_book_lee)
       ∧ Slot.provider demo_slot_garcia
         = Booking.provider (model_dump demo_book_lee)).
Proof.
  assert (Hin : demo_slot_garcia ∈ SLOTS demo_one_booking)
    by (vm_compute; apply list_elem_of_here).
  assert (Hb : BOOKINGS demo_one_booking !! "1f2e3d4c"
               = Some (model_dump demo_book_lee)) by (vm_compute; reflexivity).
  split; [exact Hin|]. split; [exact Hb|].
  exact (booked_slot_not_in_pool demo_key ascii_lower demo_date demo_one_booking
           demo_slot_garcia "1f2e3d4c" (model_dump demo_book_lee)
           demo_one_booking_reachable Hin Hb).
Defined.

Lemma demo_booking_stored :
  BOOKINGS demo_one_booking !! "1f2e3d4c" = Some (model_dump demo_book_lee).
Proof. vm_compute. reflexivity. Qed.

Lemma demo_first_booking :
  book demo_key demo_book_lee demo_key demo_uuid demo_seeded
  = (Return (BookingResponse "1f2e3d4c" "created" (model_dump demo_book_lee)),
     demo_one_booking).
Proof. vm_compute. reflexivity. Qed.

Lemma reschedule_moves_booking_witness :
  reschedule demo_key demo_move demo_key demo_one_booking
  = (Return (BookingResponse "1f2e3d4c" "rescheduled"
               {| Booking.patient_ref := "patient-1";
                  Booking.start := "2026-11-04T10:00:00";
                  Booking.end_ := "2026-11-04T10:20:00";
                  Booking.provider := "Dr. Lee";
                  Booking.visit_type := "screening" |}),
     {| SLOTS := take 2 (SLOTS demo_one_booking)
                 ++ drop 3 (SLOTS demo_one_booking)
                 ++ [{| Slot.start := "2026-11-04T09:00:00";
                        Slot.end_ := "2026-11-04T09:40:00";
                        Slot.provider := "Dr. Lee" |}];
        BOOKINGS := <["1f2e3d4c" :=
                        {| Booking.patient_ref := "patient-1";
                           Booking.start := "2026-11-04T10:00:00";
                           Booking.end_ := "2026-11-04T10:20:00";
                           Booking.provider := "Dr. Lee";
                           Booking.visit_type := "screening" |}]>
                      (BOOKINGS demo_one_booking);
        MESSAGES := MESSAGES demo_one_booking |}).
Proof.
  apply (proj1 (reschedule_moves_booking demo_key demo_move demo_key
                  demo_one_booking)
           (model_dump demo_book_lee)
           (take 2 (SLOTS demo_one_booking))
           {| Slot.start := "2026-11-04T10:00:00";
              Slot.end_ := "2026-11-04T10:20:00";
              Slot.provider := "NP Garcia" |}
           (drop 3 (SLOTS demo_one_booking))).
  - exact demo_key_authorized.
  - exact demo_booking_stored.
  - vm_compute. reflexivity.
  - vm_compute. repeat constructor; intros [H1 H2]; discriminate.
  - reflexivity.
  - reflexivity.
Defined.

Lemma failed_reschedule_changes_nothing_witness :
  BOOKINGS demo_seeded !! rr_booking_id demo_move = None
  ∧ reschedule demo_key demo_move demo_key demo_seeded
    = (Raise (HTTPException 404 "Booking not found"), demo_seeded).
Proof.
  assert (Hb : BOOKINGS demo_seeded !! rr_booking_id demo_move = None)
    by (vm_compute; reflexivity).
  split; [exact Hb|].
  exact (proj1 (failed_reschedule_changes_nothing demo_key demo_move demo_key
                  demo_seeded) demo_key_authorized Hb).
Defined.

Lemma book_takes_slot_witness :
  book demo_key demo_book_lee demo_key demo_uuid' demo_one_booking
  = (Raise (HTTPException 400 "Slot not available"), demo_one_booking).
Proof.
  destruct (book_takes_slot demo_key ascii_lower demo_book_lee demo_key demo_uuid demo_seeded
              demo_key_authorized) as (_ & _ & Hagain).
  exact (Hagain demo_date _ demo_one_booking demo_book_lee demo_key demo_uuid'
           (reachable_init demo_key ascii_lower demo_date) demo_first_booking
           demo_key_authorized eq_refl eq_refl eq_refl).
Defined.

Lemma cancel_returns_slot_witness :
  ∃ st',
    cancel demo_key (demo_cancel (Some "changed plans")) demo_key demo_one_booking
    = (Return (CancelResponse "1f2e3d4c" "canceled" "changed plans"), st')
    ∧ BOOKINGS st' !! "1f2e3d4c" = None.
Proof.
  destruct (proj2 (cancel_returns_slot demo_key
                     (demo_cancel (Some "changed plans")) demo_key
                     demo_one_booking demo_key_authorized)
              (model_dump demo_book_lee) demo_booking_stored)
    as (reason & st' & Hc & _ & Hgiven & Hb & _).
  exists st'. split.
  - rewrite Hc, (Hgiven "changed plans" eq_refl); [reflexivity|discriminate].
  - rewrite Hb. apply lookup_delete_eq.
Defined.


Lemma insurance_verify_by_visit_type_witness :
  insurance_verify demo_key (InsuranceVerifyRequest_init "Acme" "45378" None)
    demo_key demo_seeded
  = (Return (InsuranceResponse true 100%Q false ["No pre-auth required"]),
     demo_seeded).
Proof.
  apply (proj1 (insurance_verify_by_visit_type demo_key
                  (InsuranceVerifyRequest_init "Acme" "45378" None)
                  demo_key demo_seeded demo_key_authorized)).
  reflexivity.
Defined.

Lemma unauthorized_request_rejected_witness :
  book demo_key demo_book_lee (Some "guess") demo_uuid demo_seeded
  = (Raise (HTTPException 401 "Unauthorized: invalid x-api-key"), demo_seeded)
  ∧ cancel demo_key (demo_cancel None) None demo_one_booking
    = (Raise (HTTPException 401 "Unauthorized: invalid x-api-key"),
       demo_one_booking).
Proof.
  split.
  - apply (unauthorized_request_rejected demo_key ascii_lower (Some "guess") demo_seeded).
    right. discriminate.
  - apply (unauthorized_request_rejected demo_key ascii_lower None demo_one_booking).
    left. reflexivity.
Defined.

Lemma seed_book_cancel_scenario_witness :
  length (SLOTS demo_seeded) = 12
  ∧ {| Slot.start := "2026-11-04T09:00:00";
       Slot.end_ := "2026-11-04T09:40:00";
       Slot.provider := "Dr. Lee" |} ∈ SLOTS demo_seeded.
Proof.
  pose proof (seed_book_cancel_scenario (Dict:=unit) demo_key ascii_lower demo_date "patient-1"
                "screening" None demo_key demo_uuid demo_key_authorized) as H.
  cbv zeta in H. destruct H as (Hlen & _ & _ & _ & Hin & _).
  split; [exact Hlen | exact Hin].
Defined.

Lemma mutations_conserve_counts_witness :
  length (SLOTS demo_one_booking) + size (BOOKINGS demo_one_booking)
  = length (SLOTS demo_seeded) + size (BOOKINGS demo_seeded).
Proof.
  destruct (proj1 (mutations_conserve_counts demo_key demo_key demo_seeded)
              demo_book_lee demo_uuid _ _ demo_first_booking) as (_ & Hfresh & _).
  apply Hfresh. vm_compute. reflexivity.
Defined.

(** ** Where the specification's wording and the code part *)

(** C3: the identifier under which a booking is stored need not be fresh.
    The second booking draws the identifier of the first one, which is still
    active, and succeeds. *)
Lemma book_identifier_not_fresh :
  book demo_key demo_book_garcia demo_key demo_uuid' demo_one_booking
  = (Return (BookingResponse "1f2e3d4c" "created" (model_dump demo_book_garcia)),
     demo_collided)
  ∧ BOOKINGS demo_one_booking !! "1f2e3d4c" ≠ None.
Proof.
  split; [vm_compute; reflexivity|].
  rewrite demo_booking_stored. discriminate.
Qed.

(** C4: an empty reason that was given is not reported back; the answer
    says "unspecified". *)
Lemma cancel_empty_reason_reported_unspecified :
  fst (cancel demo_key (demo_cancel (Some "")) demo_key demo_one_booking)
  = Return (CancelResponse "1f2e3d4c" "canceled" "unspecified")
  ∧ fst (cancel demo_key (demo_cancel (Some "")) demo_key demo_one_booking)
    ≠ Return (CancelResponse "1f2e3d4c" "canceled" "").
Proof.
  assert (E : fst (cancel demo_key (demo_cancel (Some "")) demo_key
                     demo_one_booking)
              = Return (CancelResponse "1f2e3d4c" "canceled" "unspecified"))
    by (vm_compute; reflexivity).
  split; [exact E|]. rewrite E. discriminate.
Qed.


(** C10: a booking that draws an identifier already in use removes a slot
    and adds no booking, so the sum of pool size and booking count drops. *)
Lemma book_collision_breaks_conservation :
  fst (book demo_key demo_book_garcia demo_key demo_uuid' demo_one_booking)
  = Return (BookingResponse "1f2e3d4c" "created" (model_dump demo_book_garcia))
  ∧ size (BOOKINGS demo_collided) = size (BOOKINGS demo_one_booking)
  ∧ length (SLOTS demo_collided) + size (BOOKINGS demo_collided)
    ≠ length (SLOTS demo_one_booking) + size (BOOKINGS demo_one_booking).
Proof.
  split; [vm_compute; reflexivity|].
  split; [vm_compute; reflexivity|].
  vm_compute. discriminate.
Qed.

(** ** Further properties of the handlers *)

Section Coverage.
Context {Dict : Type}.
Variable API_KEY : option string.
Variable lower : string -> string.

Local Abbreviation unauthorized_error :=
  (HTTPException 401 "Unauthorized: invalid x-api-key").

(** *** The remaining handlers, case by case *)

Lemma send_message_cases req x_api_key uuid4 (st : State Dict) :
  (¬ authorized API_KEY x_api_key
   ∧ send_message API_KEY req x_api_key uuid4 st = (Raise unauthorized_error, st))
  ∨ (authorized API_KEY x_api_key
     ∧ send_message API_KEY req x_api_key uuid4 st
       = (Return (MessageResponse "queued" (short_id uuid4)),
          mkState (SLOTS st) (BOOKINGS st)
                  (MESSAGES st ++ [{| Message.id := short_id uuid4;
                                      Message.channel := sm_channel req;
                                      Message.to := sm_to req;
                                      Message.subject := sm_subject req;
                                      Message.template := sm_template_name req;
                                      Message.vars := sm_variables req |}]))).
Proof.
  unfold send_message, bind.
  destruct (require_key_cases API_KEY x_api_key st) as [[Ha E]|[Hn E]];
    rewrite E; [right|left]; split; auto.
Qed.

Lemma list_slots_cases date provider x_api_key (st : State Dict) :
  (¬ authorized API_KEY x_api_key
   ∧ list_slots API_KEY lower date provider x_api_key st = (Raise unauthorized_error, st))
  ∨ (authorized API_KEY x_api_key
     ∧ ∃ listing,
         list_slots API_KEY lower date provider x_api_key st
         = (Return (SlotsResponse listing), st)).
Proof.
  destruct (require_key_cases API_KEY x_api_key st) as [[Ha E]|[Hn E]].
  - right. split; [assumption|]. eexists. apply list_slots_run, Ha.
  - left. split; [assumption|]. unfold list_slots, bind. rewrite E. reflexivity.
Qed.

Lemma insurance_verify_cases req x_api_key (st : State Dict) :
  (¬ authorized API_KEY x_api_key
   ∧ insurance_verify API_KEY req x_api_key st = (Raise unauthorized_error, st))
  ∨ (authorized API_KEY x_api_key
     ∧ ∃ r, insurance_verify API_KEY req x_api_key st = (Return r, st)).
Proof.
  unfold insurance_verify, bind.
  destruct (require_key_cases API_KEY x_api_key st) as [[Ha E]|[Hn E]];
    rewrite E; [right|left]; split; eauto.
Qed.

(** *** The access guard and the health route *)

(** X1: the guard lets a request through exactly when its header is a
    non-empty string equal to the configured key, and raises the 401 error
    otherwise; an empty header is rejected even when the configured key is
    the empty string. In both cases the store is untouched. *)
Theorem require_key_accepts_iff (x_api_key : option string) (st : State Dict) :
  (require_key API_KEY x_api_key st = (Return tt, st)
   ↔ ∃ k, k ≠ "" ∧ x_api_key = Some k ∧ API_KEY = Some k)
  ∧ (require_key API_KEY x_api_key st = (Raise unauthorized_error, st)
     ↔ ¬ ∃ k, k ≠ "" ∧ x_api_key = Some k ∧ API_KEY = Some k)
  ∧ require_key API_KEY (Some "") st = (Raise unauthorized_error, st)
  ∧ require_key API_KEY None st = (Raise unauthorized_error, st).
Proof.
  assert (Hempty : ∀ x, x = None ∨ x = Some "" ->
                        require_key API_KEY x st = (Raise unauthorized_error, st)).
  { intros x Hx.
    destruct (require_key_cases API_KEY x st) as [[(k & Hk & -> & _) _]|[_ E]];
      [|exact E].
    destruct Hx as [Hx|Hx]; [discriminate|]. congruence. }
  split; [|split; [|split]]; auto.
  - destruct (require_key_cases API_KEY x_api_key st) as [[Ha E]|[Hn E]];
      rewrite E; split; intros H; try assumption; try reflexivity;
      try discriminate. contradiction.
  - destruct (require_key_cases API_KEY x_api_key st) as [[Ha E]|[Hn E]];
      rewrite E; split; intros H; try assumption; try reflexivity;
      try discriminate. contradiction.
Qed.

(** X2: when no key is configured, or the configured key is the empty
    string, every protected handler rejects every request with the 401
    error, whatever header it carries, and leaves the store as it was. *)
Theorem unconfigured_key_rejects_all
    (r : Request Dict) (x_api_key : option string) (st : State Dict) :
  API_KEY = None ∨ API_KEY = Some "" ->
  handle API_KEY lower r x_api_key st = (Raise unauthorized_error, st).
Proof.
  intros HK.
  assert (Hn : ¬ authorized API_KEY x_api_key).
  { intros (k & Hk & _ & Hkey). destruct HK; congruence. }
  destruct r as [date provider|req uuid4|req|req|req uuid4|req]; simpl.
  - destruct (list_slots_cases date provider x_api_key st) as [[_ E]|[Ha _]];
      [exact E|contradiction].
  - destruct (book_cases API_KEY req x_api_key uuid4 st)
      as [[_ E]|[(Ha & _)|(Ha & _)]]; [exact E|contradiction|contradiction].
  - destruct (reschedule_cases API_KEY req x_api_key st)
      as [[_ E]|[(Ha & _)|[(Ha & _)|(Ha & _)]]];
      [exact E|contradiction|contradiction|contradiction].
  - destruct (cancel_cases API_KEY req x_api_key st)
      as [[_ E]|[(Ha & _)|(Ha & _)]]; [exact E|contradiction|contradiction].
  - destruct (send_message_cases req x_api_key uuid4 st) as [[_ E]|[Ha _]];
      [exact E|contradiction].
  - destruct (insurance_verify_cases req x_api_key st) as [[_ E]|[Ha _]];
      [exact E|contradiction].
Qed.

(** X3: the health route needs no key: on every store it returns
    [ok = true] without raising and leaves the store as it was, and its
    [api_key_present] flag is true exactly when some header value passes the
    guard of the protected routes. *)
Theorem health_reports_guard (st : State Dict) :
  ∃ r,
    health API_KEY st = (Return r, st)
    ∧ ok r = true
    ∧ (api_key_present r = true
       ↔ ∃ x_api_key, require_key API_KEY x_api_key st = (Return tt, st)).
Proof.
  eexists. split; [reflexivity|]. split; [reflexivity|]. simpl. split.
  - intros Ht. exists API_KEY. apply require_key_authorized.
    destruct API_KEY as [k|]; [|discriminate].
    exists k. apply truthy_Some in Ht. auto.
  - intros [x Hx].
    destruct (require_key_cases API_KEY x st) as [[(k & Hk & _ & ->) _]|[_ E]].
    + apply truthy_Some, Hk.
    + rewrite E in Hx. discriminate.
Qed.

(** *** Errors *)

(** X4: a handler raises nothing but the HTTP errors of its own route: 401
    from every route, 400 "Slot not available" from book, 404 and 400 "New
    slot not available" from reschedule, 404 from cancel. The container
    operations inside the handlers ([SLOTS.remove], [BOOKINGS[...]],
    [BOOKINGS.pop]) never fail. *)
Theorem handlers_raise_only_their_errors
    (r : Request Dict) (x_api_key : option string) (st : State Dict) (e : exn) :
  fst (handle API_KEY lower r x_api_key st) = Raise e ->
  e = unauthorized_error
  ∨ match r with
    | Book _ _ => e = HTTPException 400 "Slot not available"
    | Reschedule _ =>
        e = HTTPException 404 "Booking not found"
        ∨ e = HTTPException 400 "New slot not available"
    | Cancel _ => e = HTTPException 404 "Booking not found"
    | _ => False
    end.
Proof.
  destruct r as [date provider|req uuid4|req|req|req uuid4|req]; simpl.
  - destruct (list_slots_cases date provider x_api_key st)
      as [[_ E]|[_ [l E]]]; rewrite E; simpl; intros [= <-]; auto.
  - destruct (book_cases API_KEY req x_api_key uuid4 st)
      as [[_ E]|[(_ & _ & E)|(_ & l1 & l2 & _ & _ & E)]];
      rewrite E; simpl; intros [= <-]; auto.
  - destruct (reschedule_cases API_KEY req x_api_key st)
      as [[_ E]|[(_ & _ & E)|[(_ & _ & _ & E)
               |(_ & old & l1 & m & l2 & _ & _ & _ & _ & E)]]];
      rewrite E; simpl; intros [= <-]; auto.
  - destruct (cancel_cases API_KEY req x_api_key st)
      as [[_ E]|[(_ & _ & E)|(_ & old & _ & E)]];
      rewrite E; simpl; intros [= <-]; auto.
  - destruct (send_message_cases req x_api_key uuid4 st) as [[_ E]|[_ E]];
      rewrite E; simpl; intros [= <-]; auto.
  - destruct (insurance_verify_cases req x_api_key st) as [[_ E]|[_ [r E]]];
      rewrite E; simpl; intros [= <-]; auto.
Qed.

(** X5: no handler leaves a partial update behind: whenever a call raises,
    the slot pool, the bookings and the message log are exactly what they
    were before the call. *)
Theorem raising_call_changes_nothing
    (r : Request Dict) (x_api_key : option string) (st st' : State Dict)
    (e : exn) :
  handle API_KEY lower r x_api_key st = (Raise e, st') -> st' = st.
Proof.
  destruct r as [date provider|req uuid4|req|req|req uuid4|req]; simpl.
  - destruct (list_slots_cases date provider x_api_key st)
      as [[_ E]|[_ [l E]]]; rewrite E; congruence.
  - destruct (book_cases API_KEY req x_api_key uuid4 st)
      as [[_ E]|[(_ & _ & E)|(_ & l1 & l2 & _ & _ & E)]];
      rewrite E; congruence.
  - destruct (reschedule_cases API_KEY req x_api_key st)
      as [[_ E]|[(_ & _ & E)|[(_ & _ & _ & E)
               |(_ & old & l1 & m & l2 & _ & _ & _ & _ & E)]]];
      rewrite E; congruence.
  - destruct (cancel_cases API_KEY req x_api_key st)
      as [[_ E]|[(_ & _ & E)|(_ & old & _ & E)]];
      rewrite E; congruence.
  - destruct (send_message_cases req x_api_key uuid4 st) as [[_ E]|[_ E]];
      rewrite E; congruence.
  - destruct (insurance_verify_cases req x_api_key st) as [[_ E]|[_ [r E]]];
      rewrite E; congruence.
Qed.

(** *** Messaging *)

(** X6: a message request with an accepted key appends exactly one record
    at the end of the log, built from the request's fields, and answers
    "queued" with that record's identifier, which has 8 characters; the
    records already logged, the slot pool and the bookings are untouched. *)
Theorem send_message_appends_record
    (req : SendMessageRequest Dict) (x_api_key : option string) (uuid4 : N)
    (st : State Dict) :
  authorized API_KEY x_api_key ->
  ∃ record,
    send_message API_KEY req x_api_key uuid4 st
    = (Return (MessageResponse "queued" (Message.id record)),
       {| SLOTS := SLOTS st;
          BOOKINGS := BOOKINGS st;
          MESSAGES := MESSAGES st ++ [record] |})
    ∧ String.length (Message.id record) = 8
    ∧ Message.channel record = sm_channel req
    ∧ Message.to record = sm_to req
    ∧ Message.subject record = sm_subject req
    ∧ Message.template record = sm_template_name req
    ∧ Message.vars record = sm_variables req.
Proof.
  intros Ha.
  destruct (send_message_cases req x_api_key uuid4 st) as [[Hn _]|[_ E]];
    [contradiction|].
  exists {| Message.id := short_id uuid4;
            Message.channel := sm_channel req;
            Message.to := sm_to req;
            Message.subject := sm_subject req;
            Message.template := sm_template_name req;
            Message.vars := sm_variables req |}.
  split; [exact E|]. simpl.
  split; [apply short_id_length|]. repeat split.
Qed.

Lemma step_messages (r : Request Dict) x_api_key (st : State Dict) :
  ∃ k, MESSAGES (snd (handle API_KEY lower r x_api_key st)) = MESSAGES st ++ k
       ∧ length k ≤ (if r is SendMessage _ _ then 1 else 0).
Proof.
  destruct r as [date provider|req uuid4|req|req|req uuid4|req]; simpl.
  - rewrite list_slots_state. exists []. rewrite app_nil_r. auto.
  - destruct (book_cases API_KEY req x_api_key uuid4 st)
      as [[_ E]|[(_ & _ & E)|(_ & l1 & l2 & _ & _ & E)]];
      rewrite E; exists []; rewrite app_nil_r; auto.
  - destruct (reschedule_cases API_KEY req x_api_key st)
      as [[_ E]|[(_ & _ & E)|[(_ & _ & _ & E)
               |(_ & old & l1 & m & l2 & _ & _ & _ & _ & E)]]];
      rewrite E; exists []; rewrite app_nil_r; auto.
  - destruct (cancel_cases API_KEY req x_api_key st)
      as [[_ E]|[(_ & _ & E)|(_ & old & _ & E)]];
      rewrite E; exists []; rewrite app_nil_r; auto.
  - destruct (send_message_cases req x_api_key uuid4 st) as [[_ E]|[_ E]];
      rewrite E; simpl.
    + exists []. rewrite app_nil_r. auto.
    + eexists [_]. auto.
  - rewrite insurance_verify_state. exists []. rewrite app_nil_r. auto.
Qed.

(** X7: the message log is append-only: after any sequence of calls, with
    any headers and outcomes, the log before the calls is a prefix of the
    log after them, and it has grown by at most one record per
    send-message call; no other route writes to it. *)
Theorem message_log_append_only
    (calls : list (Request Dict * option string)) (st : State Dict) :
  MESSAGES st `prefix_of` MESSAGES (run API_KEY lower calls st)
  ∧ length (MESSAGES (run API_KEY lower calls st))
    ≤ length (MESSAGES st)
      + length (List.filter
                  (fun c => if c.1 is SendMessage _ _ then true else false)
                  calls).
Proof.
  revert st. induction calls as [|[r x] calls IH]; intros st; simpl.
  - split; [reflexivity|lia].
  - destruct (step_messages r x st) as (k & Hk & Hlen).
    destruct (IH (snd (handle API_KEY lower r x st))) as [Hpre Hle].
    rewrite Hk in Hpre, Hle. split.
    + eapply prefix_app_l, Hpre.
    + rewrite length_app in Hle.
      destruct r; simpl in *; lia.
Qed.

(** *** Bookings *)

(** X8: a calendar call touches at most the booking under the identifier
    it works on: book leaves every booking under another identifier than
    the generated one as it was, reschedule and cancel leave every booking
    under another identifier than the requested one as it was, and
    reschedule never changes which identifiers are known. This holds for
    every outcome of the call. *)
Theorem other_bookings_untouched
    (x_api_key : option string) (st : State Dict) (other : string) :
  (∀ req uuid4,
      other ≠ short_id uuid4 ->
      BOOKINGS (snd (book API_KEY req x_api_key uuid4 st)) !! other
      = BOOKINGS st !! other)
  ∧ (∀ req,
      other ≠ rr_booking_id req ->
      BOOKINGS (snd (reschedule API_KEY req x_api_key st)) !! other
      = BOOKINGS st !! other)
  ∧ (∀ req,
      other ≠ cr_booking_id req ->
      BOOKINGS (snd (cancel API_KEY req x_api_key st)) !! other
      = BOOKINGS st !! other)
  ∧ (∀ req,
      is_Some (BOOKINGS (snd (reschedule API_KEY req x_api_key st)) !! other)
      ↔ is_Some (BOOKINGS st !! other)).
Proof.
  split; [|split; [|split]].
  - intros req uuid4 Hne.
    destruct (book_cases API_KEY req x_api_key uuid4 st)
      as [[_ E]|[(_ & _ & E)|(_ & l1 & l2 & _ & _ & E)]];
      rewrite E; simpl; try reflexivity.
    apply lookup_insert_ne. congruence.
  - intros req Hne.
    destruct (reschedule_cases API_KEY req x_api_key st)
      as [[_ E]|[(_ & _ & E)|[(_ & _ & _ & E)
               |(_ & old & l1 & m & l2 & _ & _ & _ & _ & E)]]];
      rewrite E; simpl; try reflexivity.
    apply lookup_insert_ne. congruence.
  - intros req Hne.
    destruct (cancel_cases API_KEY req x_api_key st)
      as [[_ E]|[(_ & _ & E)|(_ & old & _ & E)]];
      rewrite E; simpl; try reflexivity.
    apply lookup_delete_ne. congruence.
  - intros req.
    destruct (reschedule_cases API_KEY req x_api_key st)
      as [[_ E]|[(_ & _ & E)|[(_ & _ & _ & E)
               |(_ & old & l1 & m & l2 & Hb & _ & _ & _ & E)]]];
      rewrite E; simpl; try reflexivity.
    rewrite lookup_insert_is_Some'. split; [|auto].
    intros [<-|H]; [rewrite Hb; eauto|exact H].
Qed.

(** X9: booking a slot and cancelling the returned identifier undoes the
    booking: both calls succeed, the bookings are those before the two
    calls without the generated identifier (so exactly those before, when
    the identifier was not in use), the message log is unchanged, and the
    pool holds the same slots as before, with the first occurrence of the
    booked slot moved to the end. *)
Theorem book_then_cancel_restores
    (req : BookRequest) (reason : option string) (x_api_key : option string)
    (uuid4 : N) (st : State Dict) :
  authorized API_KEY x_api_key ->
  {| Slot.start := br_start req;
     Slot.end_ := br_end req;
     Slot.provider := br_provider req |} ∈ SLOTS st ->
  ∃ l1 l2 r1 st1 r2 st2,
    SLOTS st = l1 ++ {| Slot.start := br_start req;
                        Slot.end_ := br_end req;
                        Slot.provider := br_provider req |} :: l2
    ∧ Forall (fun s => s ≠ {| Slot.start := br_start req;
                              Slot.end_ := br_end req;
                              Slot.provider := br_provider req |}) l1
    ∧ book API_KEY req x_api_key uuid4 st = (Return r1, st1)
    ∧ cancel API_KEY {| cr_booking_id := short_id uuid4; cr_reason := reason |}
        x_api_key st1
      = (Return r2, st2)
    ∧ SLOTS st2 = l1 ++ l2 ++ [{| Slot.start := br_start req;
                                  Slot.end_ := br_end req;
                                  Slot.provider := br_provider req |}]
    ∧ SLOTS st2 ≡ₚ SLOTS st
    ∧ BOOKINGS st2 = delete (short_id uuid4) (BOOKINGS st)
    ∧ (BOOKINGS st !! short_id uuid4 = None -> BOOKINGS st2 = BOOKINGS st)
    ∧ MESSAGES st2 = MESSAGES st.
Proof.
  intros Ha Hin.
  apply first_occurrence in Hin as (l1 & l2 & Hs & Hl1).
  pose proof (book_success API_KEY req x_api_key uuid4 st l1 l2 Ha Hs Hl1)
    as Hbook.
  set (st1 := mkState _ _ _) in Hbook.
  assert (Hb1 : BOOKINGS st1 !! short_id uuid4 = Some (model_dump req))
    by apply lookup_insert_eq.
  pose proof (cancel_success API_KEY
                {| cr_booking_id := short_id uuid4; cr_reason := reason |}
                x_api_key st1 _ Ha Hb1) as Hcancel.
  eexists l1, l2, _, st1, _, _.
  split; [exact Hs|]. split; [exact Hl1|].
  split; [exact Hbook|]. split; [exact Hcancel|].
  simpl. split; [rewrite <- app_assoc; reflexivity|].
  split; [rewrite Hs, <- app_assoc; simpl;
          rewrite <- !Permutation_middle, app_nil_r; reflexivity|].
  split; [apply delete_insert_eq|].
  split; [|reflexivity].
  intros Hfresh. apply delete_insert_id, Hfresh.
Qed.

(** X10: cancelling frees the slot for a new booking: right after a
    successful cancel, a book request for the start, end and provider of
    the cancelled booking succeeds. *)
Theorem cancel_then_book_succeeds
    (creq : CancelRequest) (breq : BookRequest) (x_api_key : option string)
    (uuid4 : N) (st : State Dict) (old : Booking.t) :
  authorized API_KEY x_api_key ->
  BOOKINGS st !! cr_booking_id creq = Some old ->
  br_start breq = Booking.start old ->
  br_end breq = Booking.end_ old ->
  br_provider breq = Booking.provider old ->
  ∃ r1 st1 st2,
    cancel API_KEY creq x_api_key st = (Return r1, st1)
    ∧ book API_KEY breq x_api_key uuid4 st1
      = (Return (BookingResponse (short_id uuid4) "created" (model_dump breq)),
         st2)
    ∧ BOOKINGS st2 !! short_id uuid4 = Some (model_dump breq)
    ∧ length (SLOTS st2) = length (SLOTS st).
Proof.
  intros Ha Hb H1 H2 H3.
  pose proof (cancel_success API_KEY creq x_api_key st old Ha Hb) as Hcancel.
  set (st1 := mkState _ _ _) in Hcancel.
  assert (Hin : slot_of (model_dump breq) ∈ SLOTS st1).
  { simpl. apply elem_of_app. right.
    replace (slot_of (model_dump breq)) with (slot_of old)
      by (unfold slot_of, model_dump; simpl; congruence).
    apply list_elem_of_here. }
  apply first_occurrence in Hin as (l1 & l2 & Hs & Hl1).
  pose proof (book_success API_KEY breq x_api_key uuid4 st1 l1 l2 Ha Hs Hl1)
    as Hbook.
  eexists _, st1, _. split; [exact Hcancel|]. split; [exact Hbook|].
  simpl. split; [apply lookup_insert_eq|].
  assert (Hlen : length (SLOTS st1) = S (length (l1 ++ l2))).
  { rewrite Hs, !length_app. simpl. lia. }
  simpl in Hlen. rewrite length_app in Hlen. simpl in Hlen. lia.
Qed.

(** *** Reachable stores *)

Lemma length_intervals (st : State Dict) :
  length (intervals st) = length (SLOTS st) + size (BOOKINGS st).
Proof.
  unfold intervals, booked.
  rewrite length_fmap, length_app, !length_fmap, length_map_to_list.
  reflexivity.
Qed.

(** Every interval of a reachable store is one of the seeded ones, counted
    with multiplicity. *)
Lemma reachable_intervals_seeded base_date (st : State Dict) :
  reachable API_KEY lower base_date st ->
  intervals st ⊆+ intervals (initial_state (Dict:=Dict) base_date).
Proof.
  induction 1 as [|st r x_api_key Hr IH]; [reflexivity|].
  destruct r as [date provider|req uuid4|req|req|req uuid4|req]; simpl.
  - rewrite list_slots_state. exact IH.
  - destruct (book_cases API_KEY req x_api_key uuid4 st)
      as [[_ E]|[(_ & _ & E)|(_ & l1 & l2 & Hs & _ & E)]];
      rewrite E; simpl; try exact IH.
    etransitivity; [apply intervals_book, Hs|exact IH].
  - destruct (reschedule_cases API_KEY req x_api_key st)
      as [[_ E]|[(_ & _ & E)|[(_ & _ & _ & E)
               |(_ & old & l1 & m & l2 & Hb & Hs & _ & Hm & E)]]];
      rewrite E; simpl; try exact IH.
    rewrite (intervals_reschedule st _ old l1 m l2 _ _ Hb Hs Hm). exact IH.
  - destruct (cancel_cases API_KEY req x_api_key st)
      as [[_ E]|[(_ & _ & E)|(_ & old & Hb & E)]];
      rewrite E; simpl; try exact IH.
    rewrite (intervals_cancel st _ old Hb). exact IH.
  - destruct (send_message_state API_KEY req x_api_key uuid4 st) as [Hs Hb].
    unfold intervals, booked in *. rewrite Hs, Hb. exact IH.
  - rewrite insurance_verify_state. exact IH.
Qed.

Lemma reachable_capacity base_date (st : State Dict) :
  reachable API_KEY lower base_date st ->
  length (SLOTS st) + size (BOOKINGS st) ≤ 12.
Proof.
  intros Hr.
  apply reachable_intervals_seeded, submseteq_length in Hr.
  rewrite !length_intervals, seeded_pool, seeded_bookings, map_size_empty in Hr.
  simpl in Hr. lia.
Qed.

(** X11: from the seeded store on, the pool and the bookings together never
    hold more than the 12 seeded slots, so the cap of 20 in the slot
    listing never cuts anything off: a listing with an accepted key returns
    every pool slot that passes the filters. *)
Theorem listing_never_truncated
    (base_date : string) (st : State Dict)
    (date provider x_api_key : option string) :
  reachable API_KEY lower base_date st ->
  authorized API_KEY x_api_key ->
  length (SLOTS st) + size (BOOKINGS st) ≤ 12
  ∧ list_slots API_KEY lower date provider x_api_key st
    = (Return (SlotsResponse
                 (List.filter (fun s => date_keeps date s
                                        && provider_keeps_nonempty lower provider s)
                              (SLOTS st))),
       st)
  ∧ list_slots API_KEY lower None None x_api_key st
    = (Return (SlotsResponse (SLOTS st)), st).
Proof.
  intros Hr Ha. pose proof (reachable_capacity base_date st Hr) as Hcap.
  split; [exact Hcap|]. split.
  - rewrite (list_slots_run API_KEY lower date provider x_api_key st Ha), filter_twice.
    rewrite take_ge; [reflexivity|].
    etransitivity; [apply List.filter_length_le|]. lia.
  - rewrite (list_slots_unfiltered API_KEY lower x_api_key st Ha).
    rewrite take_ge; [reflexivity|lia].
Qed.

Lemma NoDup_fmap_lookup {A B} (f : A -> B) (l : list A) i j x y :
  NoDup (f <$> l) -> l !! i = Some x -> l !! j = Some y -> f x = f y -> i = j.
Proof.
  intros Hnd Hi Hj Hf.
  apply (NoDup_lookup (f <$> l) i j (f x) Hnd).
  - rewrite list_lookup_fmap, Hi. reflexivity.
  - rewrite list_lookup_fmap, Hj, Hf. reflexivity.
Qed.

(** X12: no interval is held twice in a reachable store: two different
    active bookings never have the same start and end, and two different
    positions of the pool never hold slots with the same start and end. *)
Theorem no_interval_held_twice (base_date : string) (st : State Dict) :
  reachable API_KEY lower base_date st ->
  (∀ id1 id2 b1 b2,
      BOOKINGS st !! id1 = Some b1 ->
      BOOKINGS st !! id2 = Some b2 ->
      Booking.start b1 = Booking.start b2 ->
      Booking.end_ b1 = Booking.end_ b2 ->
      id1 = id2)
  ∧ (∀ i j s1 s2,
      SLOTS st !! i = Some s1 ->
      SLOTS st !! j = Some s2 ->
      Slot.start s1 = Slot.start s2 ->
      Slot.end_ s1 = Slot.end_ s2 ->
      i = j).
Proof.
  intros Hr. apply reachable_intervals_distinct in Hr.
  unfold intervals in Hr. rewrite fmap_app in Hr.
  apply NoDup_app in Hr as (Hpool & _ & Hbooked). split.
  - intros id1 id2 b1 b2 H1 H2 Hs He.
    apply elem_of_map_to_list, list_elem_of_lookup in H1 as [i Hi].
    apply elem_of_map_to_list, list_elem_of_lookup in H2 as [j Hj].
    unfold booked in Hbooked. rewrite <- !list_fmap_compose in Hbooked.
    assert (i = j).
    { eapply (NoDup_fmap_lookup _ _ i j _ _ Hbooked Hi Hj).
      unfold interval, slot_of; simpl. congruence. }
    subst j. congruence.
  - intros i j s1 s2 Hi Hj Hs He.
    eapply (NoDup_fmap_lookup _ _ i j _ _ Hpool Hi Hj).
    unfold interval. congruence.
Qed.

Lemma moved_back (old : Booking.t) (new_start new_end : string) :
  moved (moved old new_start new_end) (Booking.start old) (Booking.end_ old)
  = old.
Proof. destruct old. reflexivity. Qed.

(** X13: on a reachable store, rescheduling a booking to a free interval
    and then back to its old start and end succeeds both times and restores
    the bookings exactly; the pool keeps its other slots, but the slot of
    the visited interval comes back at the end of the pool under the
    booking's provider, whatever provider it had before. *)
Theorem reschedule_there_and_back
    (base_date : string) (st : State Dict) (x_api_key : option string)
    (id new_start new_end : string) (old : Booking.t)
    (l1 l2 : list Slot.t) (m : Slot.t) :
  reachable API_KEY lower base_date st ->
  authorized API_KEY x_api_key ->
  BOOKINGS st !! id = Some old ->
  SLOTS st = l1 ++ m :: l2 ->
  Forall (fun s => ¬ (Slot.start s = new_start ∧ Slot.end_ s = new_end)) l1 ->
  Slot.start m = new_start ->
  Slot.end_ m = new_end ->
  ∃ r1 st1,
    reschedule API_KEY
      {| rr_booking_id := id; rr_new_start := new_start; rr_new_end := new_end |}
      x_api_key st
    = (Return r1, st1)
    ∧ reschedule API_KEY
        {| rr_booking_id := id;
           rr_new_start := Booking.start old;
           rr_new_end := Booking.end_ old |}
        x_api_key st1
      = (Return (BookingResponse id "rescheduled" old),
         {| SLOTS := l1 ++ l2 ++ [{| Slot.start := new_start;
                                     Slot.end_ := new_end;
                                     Slot.provider := Booking.provider old |}];
            BOOKINGS := BOOKINGS st;
            MESSAGES := MESSAGES st |}).
Proof.
  intros Hr Ha Hb Hs Hl1 Hm1 Hm2.
  set (req1 := {| rr_booking_id := id; rr_new_start := new_start;
                  rr_new_end := new_end |}).
  set (req2 := {| rr_booking_id := id; rr_new_start := Booking.start old;
                  rr_new_end := Booking.end_ old |}).
  assert (Hl1' : Forall (fun s => ¬ interval s
                                  = (rr_new_start req1, rr_new_end req1)) l1).
  { eapply Forall_impl; [exact Hl1|]. intros s Hn [= H1 H2]. auto. }
  assert (Hm : interval m = (rr_new_start req1, rr_new_end req1))
    by (unfold interval; simpl; congruence).
  pose proof (reschedule_success API_KEY req1 x_api_key st old l1 m l2
                Ha Hb Hs Hl1' Hm) as Hstep1.
  set (st1 := mkState _ _ _) in Hstep1.
  eexists _, st1. split; [exact Hstep1|].
  assert (Hb1 : BOOKINGS st1 !! rr_booking_id req2
                = Some (moved old new_start new_end))
    by apply lookup_insert_eq.
  assert (Hs1 : SLOTS st1 = (l1 ++ l2) ++ slot_of old :: [])
    by (simpl; rewrite <- app_assoc; reflexivity).
  assert (Hfree : Forall (fun s => ¬ interval s
                                   = (rr_new_start req2, rr_new_end req2))
                         (l1 ++ l2)).
  { apply Forall_forall. intros s Hin Heq.
    apply (distinct_pool_and_booked st s id old); auto.
    - eapply reachable_intervals_distinct, Hr.
    - rewrite Hs. rewrite elem_of_app in Hin. rewrite elem_of_app, elem_of_cons.
      tauto. }
  pose proof (reschedule_success API_KEY req2 x_api_key st1
                (moved old new_start new_end) (l1 ++ l2) (slot_of old) []
                Ha Hb1 Hs1 Hfree eq_refl) as Hstep2.
  rewrite Hstep2. simpl.
  rewrite moved_back, insert_insert_eq, (insert_id _ _ _ Hb), <- app_assoc.
  reflexivity.
Qed.

(** The providers of a reachable store are seeded ones. *)
Lemma reachable_providers base_date (st : State Dict) :
  reachable API_KEY lower base_date st ->
  Forall (fun s => Slot.provider s ∈ seeded_providers) (SLOTS st)
  ∧ ∀ id b, BOOKINGS st !! id = Some b -> Booking.provider b ∈ seeded_providers.
Proof.
  induction 1 as [|st r x_api_key Hr [IHs IHb]].
  - split.
    + rewrite seeded_pool. unfold seeded_providers.
      repeat (constructor; [simpl; set_solver|]). constructor.
    + intros id b. rewrite seeded_bookings, lookup_empty. discriminate.
  - destruct r as [date provider|req uuid4|req|req|req uuid4|req]; simpl.
    + rewrite list_slots_state. auto.
    + destruct (book_cases API_KEY req x_api_key uuid4 st)
        as [[_ E]|[(_ & _ & E)|(_ & l1 & l2 & Hs & _ & E)]];
        rewrite E; simpl; auto.
      rewrite Hs in IHs. apply Forall_app in IHs as [H1 H2].
      apply Forall_cons_1 in H2 as [Ht H2]. split.
      * apply Forall_app. auto.
      * intros id b. rewrite lookup_insert_Some.
        intros [[_ <-]|[_ Hb]]; [exact Ht|eauto].
    + destruct (reschedule_cases API_KEY req x_api_key st)
        as [[_ E]|[(_ & _ & E)|[(_ & _ & _ & E)
                 |(_ & old & l1 & m & l2 & Hb & Hs & _ & _ & E)]]];
        rewrite E; simpl; auto.
      rewrite Hs in IHs. apply Forall_app in IHs as [H1 H2].
      apply Forall_cons_1 in H2 as [_ H2]. split.
      * rewrite !Forall_app. repeat split; auto.
        constructor; [|constructor]. simpl. eauto.
      * intros id b. rewrite lookup_insert_Some.
        intros [[_ <-]|[_ Hb']]; simpl; eauto.
    + destruct (cancel_cases API_KEY req x_api_key st)
        as [[_ E]|[(_ & _ & E)|(_ & old & Hb & E)]];
        rewrite E; simpl; auto.
      split.
      * apply Forall_app. split; [exact IHs|].
        constructor; [|constructor]. simpl. eauto.
      * intros id b. rewrite lookup_delete_Some. intros [_ Hb']. eauto.
    + destruct (send_message_state API_KEY req x_api_key uuid4 st) as [Hs Hb].
      rewrite Hs, Hb. auto.
    + rewrite insurance_verify_state. auto.
Qed.

Lemma seeded_interval_on_date (base_date : string) (iv : string * string) :
  iv ∈ intervals (initial_state (Dict:=Dict) base_date) ->
  startswith iv.1 base_date = true.
Proof.
  unfold intervals, booked.
  rewrite seeded_pool, seeded_bookings, map_to_list_empty, app_nil_r.
  unfold startswith. simpl. intros Hin.
  repeat (apply elem_of_cons in Hin as [->|Hin]; [apply prefix_append|]).
  apply elem_of_nil in Hin. contradiction.
Qed.

(** X14: nothing but seeded material circulates: in a reachable store every
    pool slot and every active booking carries one of the two seeded
    providers and one of the 12 seeded (start, end) pairs, so its start lies
    on the seeding date. (The pairing of provider and interval may differ
    from the seeded one after a reschedule.) *)
Theorem only_seeded_material (base_date : string) (st : State Dict) :
  reachable API_KEY lower base_date st ->
  (∀ s,
      s ∈ SLOTS st ->
      Slot.provider s ∈ seeded_providers
      ∧ (Slot.start s, Slot.end_ s)
        ∈ intervals (initial_state (Dict:=Dict) base_date)
      ∧ startswith (Slot.start s) base_date = true)
  ∧ (∀ id b,
      BOOKINGS st !! id = Some b ->
      Booking.provider b ∈ seeded_providers
      ∧ (Booking.start b, Booking.end_ b)
        ∈ intervals (initial_state (Dict:=Dict) base_date)
      ∧ startswith (Booking.start b) base_date = true).
Proof.
  intros Hr.
  destruct (reachable_providers base_date st Hr) as [Hps Hpb].
  pose proof (reachable_intervals_seeded base_date st Hr) as Hsub.
  assert (Hiv : ∀ s, s ∈ SLOTS st ++ booked st ->
                     interval s ∈ intervals (initial_state (Dict:=Dict) base_date)).
  { intros s Hin. eapply elem_of_submseteq; [|exact Hsub].
    unfold intervals. apply list_elem_of_fmap. eauto. }
  split.
  - intros s Hin. rewrite Forall_forall in Hps.
    assert (Hi := Hiv s (proj2 (elem_of_app _ _ _) (or_introl Hin))).
    split; [auto|]. split; [exact Hi|].
    exact (seeded_interval_on_date base_date _ Hi).
  - intros id b Hb.
    assert (Hi := Hiv (slot_of b)
                    (proj2 (elem_of_app _ _ _) (or_intror (booked_elem st id b Hb)))).
    split; [eauto|]. split; [exact Hi|].
    exact (seeded_interval_on_date base_date _ Hi).
Qed.

(** *** Seeding *)

(** X15: seeding never accumulates: whatever the pool held before,
    [seed_slots] leaves exactly the 12 slots of its date in it, and it
    leaves the bookings and the message log alone; seeding again, for the
    same or another date, gives the same store as seeding once. *)
Theorem seed_slots_resets_pool (base_date earlier_date : string) (st : State Dict) :
  seed_slots base_date st
  = (Return tt,
     {| SLOTS := SLOTS (initial_state (Dict:=Dict) base_date);
        BOOKINGS := BOOKINGS st;
        MESSAGES := MESSAGES st |})
  ∧ length (SLOTS (snd (seed_slots base_date st))) = 12
  ∧ seed_slots base_date (snd (seed_slots earlier_date st))
    = seed_slots base_date st.
Proof.
  assert (H : ∀ d (s : State Dict),
             seed_slots d s
             = (Return tt, mkState (SLOTS (initial_state (Dict:=Dict) d))
                                   (BOOKINGS s) (MESSAGES s)))
    by reflexivity.
  split; [apply H|]. split.
  - rewrite H. reflexivity.
  - rewrite !H. reflexivity.
Qed.

(** *** Identifier characters *)

Lemma hex_digits_lower (d : Hexadecimal.uint) :
  Forall (fun c => is_lower_hex c = true)
         (list_ascii_of_string (HexadecimalString.NilEmpty.string_of_uint d)).
Proof.
  induction d; simpl; constructor; auto.
Qed.

Lemma hex_number_lower (n : N) :
  Forall (fun c => is_lower_hex c = true)
         (list_ascii_of_string
            (HexadecimalString.NilZero.string_of_uint (N.to_hex_uint n))).
Proof.
  unfold HexadecimalString.NilZero.string_of_uint.
  destruct (N.to_hex_uint n) eqn:E;
    try (rewrite <- E; apply hex_digits_lower).
  repeat constructor.
Qed.

Lemma list_ascii_of_append (s t : string) :
  list_ascii_of_string (s +:+ t)
  = list_ascii_of_string s ++ list_ascii_of_string t.
Proof.
  induction s as [|c s IH]; [reflexivity|].
  rewrite append_cons. simpl. rewrite IH. reflexivity.
Qed.

Lemma zero_padding_lower (k : nat) :
  Forall (fun c => is_lower_hex c = true)
         (list_ascii_of_string (String.concat "" (repeat "0" k))).
Proof.
  induction k as [|k IH]; [constructor|].
  destruct k as [|k]; [repeat constructor|].
  change (repeat "0" (S (S k))) with ("0" :: repeat "0" (S k)).
  change (String.concat "" ("0" :: repeat "0" (S k)))
    with ("0" +:+ "" +:+ String.concat "" (repeat "0" (S k))).
  rewrite !list_ascii_of_append. simpl. constructor; [reflexivity|exact IH].
Qed.

Lemma substring_Forall (P : ascii -> Prop) (n m : nat) (s : string) :
  Forall P (list_ascii_of_string s) ->
  Forall P (list_ascii_of_string (substring n m s)).
Proof.
  revert n m. induction s as [|c s IH]; intros n m H.
  - destruct n, m; exact H.
  - simpl in H. apply Forall_cons_1 in H as [Hc Hs].
    destruct n as [|n]; [destruct m as [|m]|]; simpl;
      [constructor | constructor; auto | auto].
Qed.

(** X16: the identifier of a booking or a message is always 8 characters
    long and made of decimal digits and the letters a to f only. *)
Theorem short_id_is_hex (uuid4 : N) :
  String.length (short_id uuid4) = 8
  ∧ Forall (fun c => is_lower_hex c = true)
           (list_ascii_of_string (short_id uuid4)).
Proof.
  split; [apply short_id_length|].
  rewrite short_id_digits. apply substring_Forall.
  unfold fmt_032x. rewrite list_ascii_of_append. apply Forall_app. split.
  - apply zero_padding_lower.
  - apply hex_number_lower.
Qed.

(** *** Intervals already booked *)

(** X17: on a reachable store an interval held by an active booking is
    taken: a book request for that start and end raises the 400 error
    "Slot not available" whatever provider it names, and a reschedule of any
    known booking to that start and end, the booking that holds it included,
    raises the 400 error "New slot not available"; the store is unchanged. *)
Theorem booked_interval_is_taken
    (base_date : string) (st : State Dict) (x_api_key : option string)
    (id : string) (b : Booking.t) :
  reachable API_KEY lower base_date st ->
  authorized API_KEY x_api_key ->
  BOOKINGS st !! id = Some b ->
  (∀ req uuid4,
      br_start req = Booking.start b ->
      br_end req = Booking.end_ b ->
      book API_KEY req x_api_key uuid4 st
      = (Raise (HTTPException 400 "Slot not available"), st))
  ∧ (∀ req,
      is_Some (BOOKINGS st !! rr_booking_id req) ->
      rr_new_start req = Booking.start b ->
      rr_new_end req = Booking.end_ b ->
      reschedule API_KEY req x_api_key st
      = (Raise (HTTPException 400 "New slot not available"), st)).
Proof.
  intros Hr Ha Hb.
  assert (Hfree : ∀ s, s ∈ SLOTS st -> interval s ≠ interval (slot_of b)).
  { intros s Hin. apply (distinct_pool_and_booked st s id b); auto.
    eapply reachable_intervals_distinct, Hr. }
  split.
  - intros req uuid4 H1 H2. apply book_unavailable; [assumption|].
    apply Forall_forall. intros s Hin ->. apply (Hfree _ Hin).
    unfold interval, slot_of, model_dump; simpl. congruence.
  - intros req [old Hold] H1 H2.
    apply (reschedule_unavailable API_KEY req x_api_key st old Ha Hold).
    apply Forall_forall. intros s Hin Heq. apply (Hfree _ Hin).
    rewrite Heq. unfold interval, slot_of; simpl. congruence.
Qed.

End Coverage.

(** ** The further properties at the sample stores *)

Lemma demo_unknown_cancel :
  fst (handle demo_key ascii_lower (Cancel (demo_cancel None)) demo_key demo_seeded)
  = Raise (HTTPException 404 "Booking not found").
Proof. vm_compute. reflexivity. Qed.

Lemma unconfigured_key_rejects_all_witness :
  handle (Dict:=unit) None ascii_lower (Book demo_book_lee demo_uuid) (Some "secret")
    demo_seeded
  = (Raise (HTTPException 401 "Unauthorized: invalid x-api-key"), demo_seeded).
Proof.
  apply (unconfigured_key_rejects_all None ascii_lower). left. reflexivity.
Defined.

Lemma handlers_raise_only_their_errors_witness :
  HTTPException 404 "Booking not found"
  = HTTPException 401 "Unauthorized: invalid x-api-key"
  ∨ HTTPException 404 "Booking not found"
    = HTTPException 404 "Booking not found".
Proof.
  exact (handlers_raise_only_their_errors demo_key ascii_lower (Cancel (demo_cancel None))
           demo_key demo_seeded _ demo_unknown_cancel).
Defined.

Lemma raising_call_changes_nothing_witness :
  snd (handle demo_key ascii_lower (Cancel (demo_cancel None)) demo_key demo_seeded)
  = demo_seeded.
Proof.
  apply (raising_call_changes_nothing demo_key ascii_lower (Cancel (demo_cancel None))
           demo_key demo_seeded _ (HTTPException 404 "Booking not found")).
  vm_compute. reflexivity.
Defined.

Lemma send_message_appends_record_witness :
  ∃ record : Message.t unit,
    fst (send_message demo_key demo_message demo_key demo_uuid demo_seeded)
    = Return (MessageResponse "queued" (Message.id record))
    ∧ String.length (Message.id record) = 8.
Proof.
  destruct (send_message_appends_record demo_key demo_message demo_key
              demo_uuid demo_seeded demo_key_authorized)
    as (record & E & Hlen & _).
  exists record. rewrite E. split; [reflexivity|exact Hlen].
Defined.

Lemma other_bookings_untouched_witness :
  BOOKINGS (snd (book demo_key demo_book_garcia demo_key demo_uuid_other
                   demo_one_booking)) !! "1f2e3d4c"
  = BOOKINGS demo_one_booking !! "1f2e3d4c".
Proof.
  apply (proj1 (other_bookings_untouched demo_key demo_key demo_one_booking
                  "1f2e3d4c")).
  vm_compute. discriminate.
Defined.

Lemma book_then_cancel_restores_witness :
  ∃ st1 st2 r1 r2,
    book demo_key demo_book_lee demo_key demo_uuid demo_seeded = (Return r1, st1)
    ∧ cancel demo_key (demo_cancel None) demo_key st1 = (Return r2, st2)
    ∧ BOOKINGS st2 = BOOKINGS demo_seeded
    ∧ SLOTS st2 ≡ₚ SLOTS demo_seeded.
Proof.
  destruct (book_then_cancel_restores demo_key demo_book_lee None demo_key
              demo_uuid demo_seeded demo_key_authorized)
    as (l1 & l2 & r1 & st1 & r2 & st2 & _ & _ & Hb & Hc & _ & Hp & _ & Hfresh & _).
  - vm_compute. apply list_elem_of_here.
  - exists st1, st2, r1, r2. split; [exact Hb|]. split; [exact Hc|].
    split; [|exact Hp]. apply Hfresh. vm_compute. reflexivity.
Defined.

Lemma cancel_then_book_succeeds_witness :
  ∃ st1 st2 r1,
    cancel demo_key (demo_cancel None) demo_key demo_one_booking = (Return r1, st1)
    ∧ book demo_key demo_book_lee demo_key demo_uuid_other st1
      = (Return (BookingResponse (short_id demo_uuid_other) "created"
                   (model_dump demo_book_lee)), st2).
Proof.
  destruct (cancel_then_book_succeeds demo_key (demo_cancel None) demo_book_lee
              demo_key demo_uuid_other demo_one_booking
              (model_dump demo_book_lee) demo_key_authorized
              demo_booking_stored eq_refl eq_refl eq_refl)
    as (r1 & st1 & st2 & Hc & Hb & _).
  exists st1, st2, r1. split; [exact Hc|exact Hb].
Defined.

Lemma listing_never_truncated_witness :
  list_slots demo_key ascii_lower None None demo_key demo_one_booking
  = (Return (SlotsResponse (SLOTS demo_one_booking)), demo_one_booking).
Proof.
  exact (proj2 (proj2 (listing_never_truncated demo_key ascii_lower demo_date
                         demo_one_booking None None demo_key
                         demo_one_booking_reachable demo_key_authorized))).
Defined.

Lemma no_interval_held_twice_witness :
  BOOKINGS demo_one_booking !! "1f2e3d4c" = Some (model_dump demo_book_lee)
  ∧ "1f2e3d4c" = "1f2e3d4c".
Proof.
  split; [exact demo_booking_stored|].
  exact (proj1 (no_interval_held_twice demo_key ascii_lower demo_date demo_one_booking
                  demo_one_booking_reachable)
           "1f2e3d4c" "1f2e3d4c" _ _ demo_booking_stored demo_booking_stored
           eq_refl eq_refl).
Defined.

Lemma reschedule_there_and_back_witness :
  ∃ r1 st1,
    reschedule demo_key demo_move demo_key demo_one_booking = (Return r1, st1)
    ∧ reschedule demo_key
        {| rr_booking_id := "1f2e3d4c";
           rr_new_start := "2026-11-04T09:00:00";
           rr_new_end := "2026-11-04T09:40:00" |}
        demo_key st1
      = (Return (BookingResponse "1f2e3d4c" "rescheduled"
                   (model_dump demo_book_lee)),
         {| SLOTS := take 2 (SLOTS demo_one_booking)
                     ++ drop 3 (SLOTS demo_one_booking)
                     ++ [{| Slot.start := "2026-11-04T10:00:00";
                            Slot.end_ := "2026-11-04T10:20:00";
                            Slot.provider := "Dr. Lee" |}];
            BOOKINGS := BOOKINGS demo_one_booking;
            MESSAGES := MESSAGES demo_one_booking |}).
Proof.
  apply (reschedule_there_and_back demo_key ascii_lower demo_date demo_one_booking demo_key
           "1f2e3d4c" "2026-11-04T10:00:00" "2026-11-04T10:20:00"
           (model_dump demo_book_lee)
           (take 2 (SLOTS demo_one_booking))
           (drop 3 (SLOTS demo_one_booking))
           {| Slot.start := "2026-11-04T10:00:00";
              Slot.end_ := "2026-11-04T10:20:00";
              Slot.provider := "NP Garcia" |}).
  - exact demo_one_booking_reachable.
  - exact demo_key_authorized.
  - exact demo_booking_stored.
  - vm_compute. reflexivity.
  - vm_compute. repeat constructor; intros [H1 H2]; discriminate.
  - reflexivity.
  - reflexivity.
Defined.

Lemma only_seeded_material_witness :
  Booking.provider (model_dump demo_book_lee) ∈ seeded_providers
  ∧ startswith (Booking.start (model_dump demo_book_lee)) demo_date = true.
Proof.
  destruct (proj2 (only_seeded_material demo_key ascii_lower demo_date demo_one_booking
                     demo_one_booking_reachable)
              "1f2e3d4c" (model_dump demo_book_lee) demo_booking_stored)
    as (Hp & _ & Hd).
  split; [exact Hp|exact Hd].
Defined.

Lemma booked_interval_is_taken_witness :
  reschedule demo_key
    {| rr_booking_id := "1f2e3d4c";
       rr_new_start := "2026-11-04T09:00:00";
       rr_new_end := "2026-11-04T09:40:00" |}
    demo_key demo_one_booking
  = (Raise (HTTPException 400 "New slot not available"), demo_one_booking).
Proof.
  apply (proj2 (booked_interval_is_taken demo_key ascii_lower demo_date demo_one_booking
                  demo_key "1f2e3d4c" (model_dump demo_book_lee)
                  demo_one_booking_reachable demo_key_authorized
                  demo_booking_stored)).
  - exists (model_dump demo_book_lee). exact demo_booking_stored.
  - reflexivity.
  - reflexivity.
Defined.
